(** * errorex: registry-backed typed errors and converter chains

    A shallow embedding of the Go package [errorex] (files [errorex.go] and
    [error_converter.go]) together with the properties its specification
    states about it.

    Conventions of the embedding.
    - The process-wide map [errorCodes] is passed explicitly as a
      [gmap string errorCodeRegistry].
    - A Go [panic] is an outcome of its own ([Panic]), carrying either the
      error value handed to [panic] or a runtime error raised by the Go
      runtime or by package [reflect].
    - [New] calls itself while it builds the value it panics with, so it is
      defined with a fuel argument that bounds the depth of these calls;
      [OutOfFuel] stands for a call that never returns.
    - A value of type [*ex] is modelled by the struct it points to: the
      package never assigns to a field of an [ex] after [New] has built it
      and never compares two such pointers.
    - [encoding/json.Marshal] belongs to the Go standard library and is a
      parameter of the development: for each value it returns the JSON
      text, returns an error, or hands on the panic of a [MarshalJSON]
      method of the value.
    - A method of a type declared outside the package may panic or never
      end instead of returning; an error value says for each of its
      methods which it does. *)

From stdpp Require Import gmap strings list fin_maps.

Open Scope string_scope.

(** ** The fragment of Go that the package observes *)

(** [reflect.Kind], restricted to the kinds of the type fragment below. *)
Inductive Kind : Type :=
| reflect_Bool | reflect_Int | reflect_Float64 | reflect_String
| reflect_Interface | reflect_Ptr | reflect_Chan | reflect_Struct.

Global Instance Kind_eq_dec : EqDecision Kind.
Proof. solve_decision. Defined.

(** Go types.  A defined type is identified by its package and name and
    carries its underlying type; struct literal types list their fields. *)
#[local] Unset Elimination Schemes.
Inductive GoType : Type :=
| TBool
| TInt
| TFloat64
| TString
| TAny
| TNamed (pkg name : string) (underlying : GoType)
| TPtr (elem : GoType)
| TChan (elem : GoType)
| TStruct (fields : list (string * GoType)).
#[local] Set Elimination Schemes.

Fixpoint GoType_eqb (a b : GoType) {struct a} : bool :=
  match a, b with
  | TBool, TBool | TInt, TInt | TFloat64, TFloat64
  | TString, TString | TAny, TAny => true
  | TNamed p n u, TNamed p' n' u' =>
      bool_decide (p = p') && bool_decide (n = n') && GoType_eqb u u'
  | TPtr e, TPtr e' => GoType_eqb e e'
  | TChan e, TChan e' => GoType_eqb e e'
  | TStruct fs, TStruct fs' =>
      (fix fields_eqb (l : list (string * GoType)) (l' : list (string * GoType)) : bool :=
         match l, l' with
         | [], [] => true
         | (f, t) :: r, (f', t') :: r' =>
             bool_decide (f = f') && GoType_eqb t t' && fields_eqb r r'
         | _, _ => false
         end) fs fs'
  | _, _ => false
  end.

(** Induction on types that reaches the field types of a struct. *)
Lemma GoType_ind' (P : GoType -> Prop) :
  P TBool -> P TInt -> P TFloat64 -> P TString -> P TAny ->
  (forall p n u, P u -> P (TNamed p n u)) ->
  (forall e, P e -> P (TPtr e)) ->
  (forall e, P e -> P (TChan e)) ->
  (forall fs, Forall (fun ft => P (snd ft)) fs -> P (TStruct fs)) ->
  forall t, P t.
Proof.
  intros HB HI HF HS HA HN HP HC HSt.
  fix IH 1. intros [ | | | | | p n u | e | e | fs].
  - exact HB.
  - exact HI.
  - exact HF.
  - exact HS.
  - exact HA.
  - apply HN, IH.
  - apply HP, IH.
  - apply HC, IH.
  - apply HSt. induction fs as [|[f t] r IHr]; constructor; [apply IH | exact IHr].
Qed.

Lemma GoType_eqb_eq (a b : GoType) : GoType_eqb a b = true <-> a = b.
Proof.
  revert b. induction a as [ | | | | | p n u IHu | e IHe | e IHe | fs IHfs] using GoType_ind';
    intros b; destruct b; simpl; try (split; [discriminate || reflexivity | discriminate || reflexivity]).
  - rewrite !andb_true_iff, !bool_decide_eq_true, IHu. split.
    + intros [[-> ->] ->]; reflexivity.
    + intros [= -> -> ->]; auto.
  - rewrite IHe. split; [intros ->; reflexivity | intros [= ->]; reflexivity].
  - rewrite IHe. split; [intros ->; reflexivity | intros [= ->]; reflexivity].
  - rename fields into fs'. revert fs'.
    induction IHfs as [|[f t] r Ht _ IHr]; intros [|[f' t'] r'];
      try (split; [discriminate || reflexivity | discriminate || reflexivity]).
    rewrite !andb_true_iff, bool_decide_eq_true. simpl in Ht. rewrite (Ht t'), (IHr r').
    split.
    + intros [[-> ->] [= ->]]; reflexivity.
    + intros [= -> -> ->]; auto.
Qed.

Global Instance GoType_eq_dec : EqDecision GoType.
Proof.
  intros a b. destruct (GoType_eqb a b) eqn:E.
  - left. apply GoType_eqb_eq, E.
  - right. intros H. apply GoType_eqb_eq in H. congruence.
Defined.

(** [reflect.Type.Kind]: the kind of a defined type is that of its
    underlying type. *)
Fixpoint Type_Kind (t : GoType) : Kind :=
  match t with
  | TBool => reflect_Bool
  | TInt => reflect_Int
  | TFloat64 => reflect_Float64
  | TString => reflect_String
  | TAny => reflect_Interface
  | TNamed _ _ u => Type_Kind u
  | TPtr _ => reflect_Ptr
  | TChan _ => reflect_Chan
  | TStruct _ => reflect_Struct
  end.

(** [reflect.Type.String]: a defined type prints as [pkg.Name], a struct
    literal type as [struct { F T; G U }]. *)
Fixpoint Type_String (t : GoType) : string :=
  match t with
  | TBool => "bool"
  | TInt => "int"
  | TFloat64 => "float64"
  | TString => "string"
  | TAny => "interface {}"
  | TNamed p n _ => p ++ "." ++ n
  | TPtr e => "*" ++ Type_String e
  | TChan e => "chan " ++ Type_String e
  | TStruct fs =>
      match fs with
      | [] => "struct {}"
      | _ =>
          "struct {"
          ++ (fix fields_String (first : bool) (l : list (string * GoType)) : string :=
                match l with
                | [] => EmptyString
                | (f, ft) :: r =>
                    (if first then " " else "; ") ++ f ++ " " ++ Type_String ft
                    ++ fields_String false r
                end) true fs
          ++ " }"
      end
  end.

(** Go values of the fragment.  An interface value is [nil] or a value
    with its dynamic type. *)
#[local] Unset Elimination Schemes.
Inductive GoValue : Type :=
| VBool (b : bool)
| VInt (z : Z)
| VString (s : string)
| VStruct (fields : list GoValue)
| VChan (id : nat)
| VPtr (target : option nat)
| VIface (dyn : option (GoType * GoValue)).
#[local] Set Elimination Schemes.

(** A value of the empty interface [any]. *)
Definition any : Type := option (GoType * GoValue).

(** [reflect.TypeOf]: the dynamic type, [nil] for a nil interface. *)
Definition reflect_TypeOf (i : any) : option GoType := fst <$> i.

(** What the Go runtime reports when a method is called through a nil
    interface or pointer. *)
Definition nil_dereference : string :=
  "runtime error: invalid memory address or nil pointer dereference".

(** How a call of code outside the package ends when it does not return:
    with a panic that carries an error of the Go runtime, given by its
    message; with a panic that carries the value this code gave to
    [panic]; or not at all. *)
Inductive failure : Type :=
| Panics_runtime (msg : string)
| Panics_value (payload : any)
| Never_returns.

(** ** Error values *)

(** [type ex struct { code string; detail any }] *)
Record ex : Type := { code : string; detail : any }.

(** A [reflect.Value] as a call through [reflect] returns it: the static
    result type of the method and the value. *)
Record reflect_Value : Type := { v_type : GoType; v_val : GoValue }.

Definition Value_Kind (v : reflect_Value) : Kind := Type_Kind (v_type v).

(** [reflect.Value.String]: the string itself for a value of kind String,
    and a description of the type for every other kind. *)
Definition Value_String (v : reflect_Value) : string :=
  match v_val v with
  | VString s => s
  | _ => "<" ++ Type_String (v_type v) ++ " Value>"
  end.

(** An exported method as [reflect] sees it: the number of its parameters,
    whether the last one is variadic, and what a call without arguments
    does: it returns [results], values of the method's result types, or,
    when [fails] is set, it fails in that way instead. *)
Record method : Type :=
  { NumIn : nat; IsVariadic : bool; results : list reflect_Value;
    fails : option failure }.

(** An error value given by what the package can observe of it: its
    dynamic type, what its [Error] method returns or, when
    [f_Error_fails] is set, how it fails, and its other exported methods
    by name.  The values of types declared outside the package are of
    this form, and so is a nil [*ex] held in a non-nil interface, every
    method of which dereferences the nil receiver. *)
Record foreign : Type :=
  { f_type : GoType; f_Error : string; f_Error_fails : option failure;
    f_methods : gmap string method }.

(** A non-nil value of the interface [error]: a [*ex] that is not nil, or
    a value given by its observable behaviour. *)
Inductive error_value : Type :=
| ErrEX (e : ex)
| ErrForeign (f : foreign).

(** The interface [error]; [None] is [nil]. *)
Definition error : Type := option error_value.

(** The interface [EX]; [None] is [nil].  The values of [EX] are the error
    values that [implements_EX] accepts. *)
Definition EX : Type := option error_value.

(** ** Outcomes of a call *)

(** What a [panic] carries: the error value the package gave to [panic],
    an error of the Go runtime or of [reflect], or the value that code
    outside the package gave to [panic]. *)
Inductive panic_value : Type :=
| PanicError (e : error_value)
| RuntimeError (msg : string)
| PanicAny (payload : any).



Inductive outcome (A : Type) : Type :=
| Return (a : A)
| Panic (p : panic_value)
| OutOfFuel.
Arguments Return {A} a.
Arguments Panic {A} p.
Arguments OutOfFuel {A}.

(** The outcome of a call in which code outside the package fails. *)
Definition failed {A} (x : failure) : outcome A :=
  match x with
  | Panics_runtime msg => Panic (RuntimeError msg)
  | Panics_value payload => Panic (PanicAny payload)
  | Never_returns => OutOfFuel
  end.

Global Instance outcome_bind : MBind outcome := fun A B k m =>
  match m with
  | Return a => k a
  | Panic p => Panic p
  | OutOfFuel => OutOfFuel
  end.

(** [panic(f(...))]: the argument is evaluated first; when it returns a
    non-nil error value, that value is what the panic carries. *)
Definition panic_with {A} (m : outcome EX) : outcome A :=
  v ← m;
  match v with
  | Some e => Panic (PanicError e)
  | None => Panic (RuntimeError "panic called with nil argument")
  end.

(** [reflect.Type.String] called through the interface [reflect.Type],
    which is [nil] for the type of a nil interface. *)
Definition Type_String_call (t : option GoType) : outcome string :=
  match t with
  | Some ty => Return (Type_String ty)
  | None => Panic (RuntimeError nil_dereference)
  end.

(** [reflect.Value.Call] with [nargs] arguments on a method value:
    [reflect] checks the number of arguments, then the method runs. *)
Definition Value_Call (m : method) (nargs : nat) : outcome (list reflect_Value) :=
  let n := if IsVariadic m then NumIn m - 1 else NumIn m in
  if decide (nargs < n) then
    Panic (RuntimeError "reflect: Call with too few input arguments")
  else if negb (IsVariadic m) && bool_decide (n < nargs) then
    Panic (RuntimeError "reflect: Call with too many input arguments")
  else
    match fails m with
    | Some x => failed x
    | None => Return (results m)
    end.

(** ** errorex.go *)

Definition ErrCodeUnknownError : string := "errorex.000".
Definition ErrCodeNotRegistered : string := "errorex.001".
Definition ErrCodeAlreadyRegistered : string := "errorex.002".
Definition ErrDetailTypeMismatch : string := "errorex.003".

Record UnknownErrorDetail : Type := { Detail : string }.
Record ErrorEXDetail : Type := { Code : string }.
Record ErrorEXDetailTypeMismatch : Type :=
  { ExpectedType : string; ActualType : string }.

Definition T_UnknownErrorDetail : GoType :=
  TNamed "errorex" "UnknownErrorDetail" (TStruct [("Detail", TString)]).
Definition T_ErrorEXDetail : GoType :=
  TNamed "errorex" "ErrorEXDetail" (TStruct [("Code", TString)]).
Definition T_ErrorEXDetailTypeMismatch : GoType :=
  TNamed "errorex" "ErrorEXDetailTypeMismatch"
    (TStruct [("ExpectedType", TString); ("ActualType", TString)]).

(** The conversion of a struct of the package to [any], as it happens when
    the struct is passed for the type parameter [T]. *)
Definition box_UnknownErrorDetail (d : UnknownErrorDetail) : any :=
  Some (T_UnknownErrorDetail, VStruct [VString (Detail d)]).
Definition box_ErrorEXDetail (d : ErrorEXDetail) : any :=
  Some (T_ErrorEXDetail, VStruct [VString (Code d)]).
Definition box_ErrorEXDetailTypeMismatch (d : ErrorEXDetailTypeMismatch) : any :=
  Some (T_ErrorEXDetailTypeMismatch,
        VStruct [VString (ExpectedType d); VString (ActualType d)]).

(** [type errorCodeRegistry struct]; [detailType] is a [reflect.Type],
    [nil] when the exemplar was a nil interface. *)
Record errorCodeRegistry : Type :=
  { entry_code : string; description : string; detailType : option GoType }.

(** [func New[T any](code string, detail T) EX] *)
Fixpoint New (fuel : nat) (errorCodes : gmap string errorCodeRegistry)
    (code : string) (detail : any) : outcome EX :=
  match fuel with
  | O => OutOfFuel
  | S fuel' =>
      match errorCodes !! code with
      | None =>
          panic_with
            (New fuel' errorCodes ErrCodeNotRegistered
               (box_ErrorEXDetail {| Code := code |}))
      | Some errorRegistry =>
          if decide (reflect_TypeOf detail ≠ detailType errorRegistry) then
            expected ← Type_String_call (detailType errorRegistry);
            actual ← Type_String_call (reflect_TypeOf detail);
            panic_with
              (New fuel' errorCodes ErrDetailTypeMismatch
                 (box_ErrorEXDetailTypeMismatch
                    {| ExpectedType := expected; ActualType := actual |}))
          else Return (Some (ErrEX {| code := code; detail := detail |}))
      end
  end.

(** [func RegisterErrorCode[T any](code string, description string, detail T)];
    the registry after the call is the second component. *)
Definition RegisterErrorCode (fuel : nat) (code description : string) (detail : any)
    (errorCodes : gmap string errorCodeRegistry)
    : outcome () * gmap string errorCodeRegistry :=
  match errorCodes !! code with
  | Some _ =>
      (panic_with
         (New fuel errorCodes ErrCodeAlreadyRegistered
            (box_ErrorEXDetail {| Code := code |})),
       errorCodes)
  | None =>
      let registry :=
        {| entry_code := code; description := description;
           detailType := reflect_TypeOf detail |} in
      (Return (), <[code := registry]> errorCodes)
  end.

(** Sequencing of two calls on the registry: the second runs when the first
    returns. *)
Definition and_then (a b : gmap string errorCodeRegistry ->
                           outcome () * gmap string errorCodeRegistry)
    (errorCodes : gmap string errorCodeRegistry)
    : outcome () * gmap string errorCodeRegistry :=
  match a errorCodes with
  | (Return _, errorCodes') => b errorCodes'
  | stopped => stopped
  end.

(** [func init()] *)
Definition init (fuel : nat) :
    gmap string errorCodeRegistry -> outcome () * gmap string errorCodeRegistry :=
  and_then
    (RegisterErrorCode fuel ErrCodeUnknownError "Unknown errorex"
       (box_UnknownErrorDetail {| Detail := EmptyString |}))
    (and_then
       (RegisterErrorCode fuel ErrCodeNotRegistered "Errorex code not registered"
          (box_ErrorEXDetail {| Code := EmptyString |}))
       (and_then
          (RegisterErrorCode fuel ErrCodeAlreadyRegistered
             "Errorex code already registered"
             (box_ErrorEXDetail {| Code := EmptyString |}))
          (RegisterErrorCode fuel ErrDetailTypeMismatch
             "Errorex detail type mismatch"
             (box_ErrorEXDetailTypeMismatch
                {| ExpectedType := EmptyString; ActualType := EmptyString |})))).

(** The registry when [init] has run: the package variable [errorCodes]
    starts as an empty map. *)
Definition initial_errorCodes : gmap string errorCodeRegistry :=
  snd (init 0 ∅).

(** [func (e *ex) Code() string] *)
Definition ex_Code (e : ex) : string := code e.

(** [func (e *ex) Detail() any] *)
Definition ex_Detail (e : ex) : any := detail e.

(** The double quote character. *)
Definition dq : string :=
  Eval cbv in String (Ascii.ascii_of_nat 34) EmptyString.

(** What [encoding/json.Marshal] does for a value: it returns the JSON
    text; or it returns an error, given by what the verb [%v] prints for
    it (its [Error()] string); or a [MarshalJSON] method of the value
    fails: when it panics, [json.Marshal], which recovers only the panics
    of its own encoder, hands that panic on, and when it does not end,
    neither does [json.Marshal]. *)
Inductive Marshal_result : Type :=
| Marshal_ok (json : string)
| Marshal_error (err : string)
| Marshal_fails (x : failure).

Section WithMarshal.
Variable json_Marshal : any -> Marshal_result.

(** [func (e *ex) Error() string]; the two [fmt.Sprintf] formats are
    [{"code": "%s", "detail": "failed to marshal detail: %v"}] and
    [{"code": "%s", "detail": %s}]. *)
Definition ex_Error (e : ex) : outcome string :=
  match json_Marshal (detail e) with
  | Marshal_fails x => failed x
  | Marshal_error err =>
      Return
        ("{" ++ dq ++ "code" ++ dq ++ ": " ++ dq ++ code e ++ dq ++ ", "
         ++ dq ++ "detail" ++ dq ++ ": " ++ dq ++ "failed to marshal detail: "
         ++ err ++ dq ++ "}")
  | Marshal_ok detailJSON =>
      Return
        ("{" ++ dq ++ "code" ++ dq ++ ": " ++ dq ++ code e ++ dq ++ ", "
         ++ dq ++ "detail" ++ dq ++ ": " ++ detailJSON ++ "}")
  end.

(** The method [Error] of a non-nil error value. *)
Definition Error_of (v : error_value) : outcome string :=
  match v with
  | ErrEX e => ex_Error e
  | ErrForeign f =>
      match f_Error_fails f with
      | Some x => failed x
      | None => Return (f_Error f)
      end
  end.

(** [err.Error()] on a value of the interface [error]. *)
Definition Error_call (err : error) : outcome string :=
  match err with
  | Some v => Error_of v
  | None => Panic (RuntimeError nil_dereference)
  end.

(** The dynamic type of [*ex]. *)
Definition T_ex : GoType :=
  TPtr (TNamed "errorex" "ex" (TStruct [("code", TString); ("detail", TAny)])).

(** [reflect.ValueOf(err).Kind()] for a non-nil error. *)
Definition ValueOf_Kind (v : error_value) : Kind :=
  match v with
  | ErrEX _ => Type_Kind T_ex
  | ErrForeign f => Type_Kind (f_type f)
  end.

(** A method without parameters that returns [out]. *)
Definition nullary (out : reflect_Value) : method :=
  {| NumIn := 0; IsVariadic := false; results := [out]; fails := None |}.

(** The method [Error() string] as [reflect] sees it, for what a call of
    it does. *)
Definition Error_method (call : outcome string) (how : option failure) : method :=
  {| NumIn := 0; IsVariadic := false;
     results := [{| v_type := TString;
                    v_val := VString (match call with
                                      | Return msg => msg
                                      | _ => EmptyString
                                      end) |}];
     fails := how |}.

(** [reflect.Value.MethodByName]: [None] is the invalid [Value]. *)
Definition MethodByName (v : error_value) (name : string) : option method :=
  match v with
  | ErrEX e =>
      if decide (name = "Code") then
        Some (nullary {| v_type := TString; v_val := VString (ex_Code e) |})
      else if decide (name = "Detail") then
        Some (nullary {| v_type := TAny; v_val := VIface (ex_Detail e) |})
      else if decide (name = "Error") then
        Some (Error_method (ex_Error e)
                (match json_Marshal (detail e) with
                 | Marshal_fails x => Some x
                 | _ => None
                 end))
      else None
  | ErrForeign f =>
      if decide (name = "Error") then
        Some (Error_method (Error_of (ErrForeign f)) (f_Error_fails f))
      else f_methods f !! name
  end.

(** [func Is(err error, code string) bool] *)
Definition Is (fuel : nat) (errorCodes : gmap string errorCodeRegistry)
    (err : error) (code : string) : outcome bool :=
  match errorCodes !! code with
  | None =>
      panic_with
        (New fuel errorCodes ErrCodeNotRegistered
           (box_ErrorEXDetail {| Code := code |}))
  | Some _ =>
      match err with
      | None => Return false
      | Some errorValue =>
          if decide (ValueOf_Kind errorValue ≠ reflect_Ptr) then Return false
          else
            match MethodByName errorValue "Code" with
            | None => Return false
            | Some codeMethod =>
                codeValue ← Value_Call codeMethod 0;
                if decide (List.length codeValue ≠ 1) then Return false
                else
                  match codeValue with
                  | codeValue0 :: _ =>
                      if decide (Value_Kind codeValue0 ≠ reflect_String)
                      then Return false
                      else Return (bool_decide (Value_String codeValue0 = code))
                  | [] => Return false
                  end
            end
      end
  end.
End WithMarshal.

(** ** error_converter.go *)

(** The types that implement the interface [ErrorConverter]: the three of
    the package and [mockErrorConverter] of its test file.  Each of them is
    or embeds a [BaseErrorConverter]. *)
Inductive converter_type : Type :=
| BaseErrorConverter
| unknownErrorConverter
| exErrorConverter
| mockErrorConverter.

(** A converter in memory: its type and the field [next] of its
    [BaseErrorConverter]. *)
Record converter : Type :=
  { conv_type : converter_type; next : option nat }.

(** A value of the interface [ErrorConverter]: [nil] or the address of a
    converter.  Converters live in a store indexed by address, since
    [SetNext] updates them in place and several links may lead to one
    converter. *)
Definition ErrorConverter : Type := option nat.

(** [func (b *BaseErrorConverter) SetNext(next ErrorConverter)], called
    through the interface. *)
Definition SetNext (store : list converter) (b : ErrorConverter) (next' : ErrorConverter)
    : outcome () * list converter :=
  match b ≫= (store !!.) with
  | Some node =>
      (Return (), <[default 0 b := {| conv_type := conv_type node; next := next' |}]> store)
  | None => (Panic (RuntimeError nil_dereference), store)
  end.

(** [&T{}]: a new converter at the next free address. *)
Definition allocate (store : list converter) (t : converter_type)
    : ErrorConverter * list converter :=
  (Some (List.length store), (store ++ [{| conv_type := t; next := None |}])%list).

(** [func NewUnknownErrorConverter() ErrorConverter] *)
Definition NewUnknownErrorConverter (store : list converter)
    : ErrorConverter * list converter :=
  allocate store unknownErrorConverter.

(** [func NewEXErrorConverter(next ErrorConverter) ErrorConverter] *)
Definition NewEXErrorConverter (store : list converter) (next' : ErrorConverter)
    : ErrorConverter * list converter :=
  let '(converter, store1) := allocate store exErrorConverter in
  (converter, snd (SetNext store1 converter next')).

(** Whether a method of a foreign type has the signature [func() out]. *)
Definition has_signature (m : method) (out : GoType) : bool :=
  bool_decide (NumIn m = 0) && negb (IsVariadic m)
  && bool_decide (v_type <$> results m = [out]).

(** Whether the dynamic type of an error value implements [EX]: next to
    [Error() string] it has [Code() string] and [Detail() any]. *)
Definition implements_EX (v : error_value) : bool :=
  match v with
  | ErrEX _ => true
  | ErrForeign f =>
      match f_methods f !! "Code", f_methods f !! "Detail" with
      | Some c, Some d => has_signature c TString && has_signature d TAny
      | _, _ => false
      end
  end.

(** The type assertion [err.(EX)] with its [ok] result: [None] is [!ok]. *)
Definition assert_EX (err : error) : option error_value :=
  match err with
  | Some v => if implements_EX v then Some v else None
  | None => None
  end.

(** From the test file. *)
Definition ErrCodeMockError : string := "ErrCodeMockError".
Record MockErrorDetail : Type := { mock_Detail : string }.
Definition T_MockErrorDetail : GoType :=
  TNamed "errorex" "MockErrorDetail" (TStruct [("Detail", TString)]).
Definition box_MockErrorDetail (d : MockErrorDetail) : any :=
  Some (T_MockErrorDetail, VStruct [VString (mock_Detail d)]).

Section WithConverters.
Variable json_Marshal : any -> Marshal_result.
Variable errorCodes : gmap string errorCodeRegistry.
Variable store : list converter.

Section Methods.
(** The fuel left for the calls of [New], and the call of
    [ConvertError] through the interface [ErrorConverter]. *)
Variable fuel : nat.
Variable call : ErrorConverter -> error -> outcome EX.

(** [func (b *BaseErrorConverter) ConvertError(err error) EX] *)
Definition BaseErrorConverter_ConvertError (b : converter) (err : error)
    : outcome EX :=
  match next b with
  | Some _ => call (next b) err
  | None => Return None
  end.

(** [func (u *unknownErrorConverter) ConvertError(err error) EX] *)
Definition unknownErrorConverter_ConvertError (u : converter) (err : error)
    : outcome EX :=
  msg ← Error_call json_Marshal err;
  New fuel errorCodes ErrCodeUnknownError
    (box_UnknownErrorDetail {| Detail := msg |}).

(** [func (c *exErrorConverter) ConvertError(err error) EX] *)
Definition exErrorConverter_ConvertError (c : converter) (err : error)
    : outcome EX :=
  match assert_EX err with
  | Some ex => Return (Some ex)
  | None => BaseErrorConverter_ConvertError c err
  end.

(** [func (m *mockErrorConverter) ConvertError(err error) EX], from the
    test file. *)
Definition mockErrorConverter_ConvertError (m : converter) (err : error)
    : outcome EX :=
  msg ← Error_call json_Marshal err;
  if decide (msg ≠ "test error") then call (next m) err
  else
    msg' ← Error_call json_Marshal err;
    New fuel errorCodes ErrCodeMockError
      (box_MockErrorDetail {| mock_Detail := msg' |}).
End Methods.

(** [c.ConvertError(err)] for [c] of the interface [ErrorConverter]: the
    method of the dynamic type of [c] runs.  The fuel bounds the depth of
    the calls, along the chain and inside [New]. *)
Fixpoint ConvertError (fuel : nat) (c : ErrorConverter) (err : error)
    : outcome EX :=
  match fuel with
  | O => OutOfFuel
  | S fuel' =>
      match c ≫= (store !!.) with
      | None => Panic (RuntimeError nil_dereference)
      | Some node =>
          match conv_type node with
          | BaseErrorConverter =>
              BaseErrorConverter_ConvertError (ConvertError fuel') node err
          | unknownErrorConverter =>
              unknownErrorConverter_ConvertError fuel' node err
          | exErrorConverter =>
              exErrorConverter_ConvertError (ConvertError fuel') node err
          | mockErrorConverter =>
              mockErrorConverter_ConvertError fuel' (ConvertError fuel') node err
          end
      end
  end.
End WithConverters.

(** [type Exploding struct{}] with
    [func (Exploding) MarshalJSON() ([]byte, error) { panic("boom") }]. *)
Definition T_Exploding : GoType := TNamed "main" "Exploding" (TStruct []).

(** An instance of the parameter [json_Marshal] for the examples: [null]
    for a nil interface, the quoted text for a string without special
    characters, the error of [encoding/json] for a channel, the panic of
    its [MarshalJSON] for an [Exploding], and an empty object for the
    rest. *)
Definition sample_Marshal (v : any) : Marshal_result :=
  match v with
  | None => Marshal_ok "null"
  | Some (_, VString s) => Marshal_ok (dq ++ s ++ dq)
  | Some (t, VChan _) => Marshal_error ("json: unsupported type: " ++ Type_String t)
  | Some (t, _) =>
      if decide (t = T_Exploding)
      then Marshal_fails (Panics_value (Some (TString, VString "boom")))
      else Marshal_ok "{}"
  end.

(** ** The registries the package can be in *)

(** One returning call of [RegisterErrorCode]. *)
Definition register_step (r r' : gmap string errorCodeRegistry) : Prop :=
  ∃ fuel code description detail,
    RegisterErrorCode fuel code description detail r = (Return (), r').

(** [later r r']: [r'] is [r] after any number of returning calls of
    [RegisterErrorCode].  No other function writes [errorCodes], and a
    call that panics leaves it as it was. *)
Definition later : relation (gmap string errorCodeRegistry) := rtc register_step.

(** The registries after [init]. *)
Definition reachable (r : gmap string errorCodeRegistry) : Prop :=
  later initial_errorCodes r.

(** [code] is registered with the detail type [t]. *)
Definition has_shape (r : gmap string errorCodeRegistry) (code : string) (t : GoType)
    : Prop :=
  ∃ entry, r !! code = Some entry ∧ detailType entry = Some t.

Definition reserved_registered (r : gmap string errorCodeRegistry) : Prop :=
  has_shape r ErrCodeUnknownError T_UnknownErrorDetail
  ∧ has_shape r ErrCodeNotRegistered T_ErrorEXDetail
  ∧ has_shape r ErrCodeAlreadyRegistered T_ErrorEXDetail
  ∧ has_shape r ErrDetailTypeMismatch T_ErrorEXDetailTypeMismatch.

(** A typed error is well formed in [r]: its code is registered and its
    detail has the registered type. *)
Definition well_formed (r : gmap string errorCodeRegistry) (e : ex) : Prop :=
  ∃ entry, r !! code e = Some entry ∧ reflect_TypeOf (detail e) = detailType entry.

(** [run], a call given by its fuel, ends with [res]. *)
Definition yields {A} (run : nat -> outcome A) (res : outcome A) : Prop :=
  res ≠ OutOfFuel ∧ ∃ fuel, run fuel = res.

(** [v] has a method [Code] without parameters that returns, and whose
    one result is of kind String and holds [s]. *)
Definition offers_Code (json_Marshal : any -> Marshal_result)
    (v : error_value) (s : string) : Prop :=
  ∃ m out, MethodByName json_Marshal v "Code" = Some m
           ∧ NumIn m = 0 ∧ IsVariadic m = false
           ∧ fails m = None ∧ results m = [out]
           ∧ Value_Kind out = reflect_String ∧ Value_String out = s.

(** [leads_to r store u k c]: from the converter [c], [k] links [next]
    lead to the converter at address [u], through converters of the types
    [BaseErrorConverter] and [exErrorConverter], and of the type
    [mockErrorConverter] when its code is registered for its detail
    type. *)
Inductive leads_to (r : gmap string errorCodeRegistry) (store : list converter)
    (u : nat) : nat -> ErrorConverter -> Prop :=
| leads_here : leads_to r store u 0 (Some u)
| leads_next k a node :
    store !! a = Some node ->
    conv_type node = BaseErrorConverter
    ∨ conv_type node = exErrorConverter
    ∨ (conv_type node = mockErrorConverter
       ∧ has_shape r ErrCodeMockError T_MockErrorDetail) ->
    leads_to r store u k (next node) ->
    leads_to r store u (S k) (Some a).

(** ** Values used in the examples *)

(** [struct{ Message string }] and [struct{ Label string }] of the tests. *)
Definition T_Message : GoType := TStruct [("Message", TString)].
Definition T_Label : GoType := TStruct [("Label", TString)].

(** The registry of the tests once ["test.is"] is registered. *)
Definition test_errorCodes : gmap string errorCodeRegistry :=
  snd (RegisterErrorCode 0 "test.is" "test description"
         (Some (T_Message, VStruct [VString EmptyString])) initial_errorCodes).

(** [fmt.Errorf("some error")]: a [*errors.errorString], with no exported
    method besides [Error]. *)
Definition some_error : foreign :=
  {| f_type := TPtr (TNamed "errors" "errorString" (TStruct [("s", TString)]));
     f_Error := "some error";
     f_Error_fails := None;
     f_methods := ∅ |}.

(** [type valueErr struct{}] with the methods [Error() string] and
    [Code() string] on the value receiver, [Code] returning
    ["errorex.000"]; passed as a value, not as a pointer. *)
Definition valueErr : foreign :=
  {| f_type := TNamed "main" "valueErr" (TStruct []);
     f_Error := "value error";
     f_Error_fails := None;
     f_methods :=
       {[ "Code" := nullary {| v_type := TString;
                               v_val := VString ErrCodeUnknownError |} ]} |}.

(** [type argErr struct{}] with the methods [Error() string] and
    [Code(n int) string] on the pointer receiver; passed as [&argErr{}]. *)
Definition argErr : foreign :=
  {| f_type := TPtr (TNamed "main" "argErr" (TStruct []));
     f_Error := "arg error";
     f_Error_fails := None;
     f_methods :=
       {[ "Code" := {| NumIn := 1; IsVariadic := false;
                       results := [{| v_type := TString;
                                      v_val := VString ErrCodeUnknownError |}];
                       fails := None |} ]} |}.

(** A string in which every apostrophe stands for a double quote. *)
Fixpoint with_quotes (s : string) : string :=
  match s with
  | EmptyString => EmptyString
  | String a rest =>
      (if Ascii.eqb a (Ascii.ascii_of_nat 39) then dq else String a EmptyString)
      ++ with_quotes rest
  end.

(** [type ptrErr struct{}] with [Error() string] and [Code() string] on
    the pointer receiver, [Code] returning ["test.is"]; passed as
    [&ptrErr{}]. *)
Definition ptrErr : foreign :=
  {| f_type := TPtr (TNamed "main" "ptrErr" (TStruct []));
     f_Error := "pointer error";
     f_Error_fails := None;
     f_methods :=
       {[ "Code" := nullary {| v_type := TString; v_val := VString "test.is" |} ]} |}.

(** [type foreignEX struct{...}] of another package, with [Error() string],
    [Code() string] and [Detail() any] on the pointer receiver: it
    implements [EX]; its code is not registered. *)
Definition foreign_EX : foreign :=
  {| f_type := TPtr (TNamed "main" "foreignEX" (TStruct []));
     f_Error := "foreign typed error";
     f_Error_fails := None;
     f_methods :=
       <["Code" := nullary {| v_type := TString; v_val := VString "main.E1" |}]>
         {[ "Detail" := nullary {| v_type := TAny; v_val := VIface None |} ]} |}.

(** The registry of the converter tests, where [ErrCodeMockError] is
    registered, and the chain pass-through, mock, catch-all: the catch-all
    converter is at address 0, the mock at 1 and the head at 2. *)
Definition mock_errorCodes : gmap string errorCodeRegistry :=
  snd (RegisterErrorCode 0 ErrCodeMockError "test description"
         (box_MockErrorDetail {| mock_Detail := EmptyString |}) initial_errorCodes).

Definition chain_store : list converter :=
  let '(unknown, store1) := NewUnknownErrorConverter [] in
  let '(mock, store2) := allocate store1 mockErrorConverter in
  let store3 := snd (SetNext store2 mock unknown) in
  snd (NewEXErrorConverter store3 mock).

(** The tests on the base converter: a [BaseErrorConverter{}] at address
    1 next to a catch-all converter at address 0. *)
Definition base_store : list converter :=
  let '(unknown, store1) := NewUnknownErrorConverter [] in
  snd (allocate store1 BaseErrorConverter).

(** A registry in which ["no.detail"] is registered with a nil exemplar,
    as [RegisterErrorCode[any]("no.detail", ..., nil)] leaves it. *)
Definition no_detail_errorCodes : gmap string errorCodeRegistry :=
  snd (RegisterErrorCode 0 "no.detail" "code without detail" None initial_errorCodes).

(** [x.Code()] on a value [x] of the interface [EX]: the method of the
    dynamic type runs.  [Some s] when it returns the string [s], [None]
    when it fails. *)
Definition Code_call (v : error_value) : option string :=
  match v with
  | ErrEX e => Some (ex_Code e)
  | ErrForeign f =>
      match f_methods f !! "Code" with
      | Some m =>
          match fails m, results m with
          | None, [{| v_type := _; v_val := VString s |}] => Some s
          | _, _ => None
          end
      | None => None
      end
  end.

(** The number of arguments that [reflect.Value.Call] asks for at least. *)
Definition required_arguments (m : method) : nat :=
  if IsVariadic m then NumIn m - 1 else NumIn m.

(** A [BaseErrorConverter] that is its own successor, as
    [b.SetNext(b)] leaves it. *)
Definition loop_store : list converter :=
  let '(b, store1) := allocate [] BaseErrorConverter in
  snd (SetNext store1 b b).


(** [type valueEX struct{}] with [Error() string], [Code() string] and
    [Detail() any] on the value receiver, [Code] returning
    ["errorex.000"]: passed as a value it implements [EX]. *)
Definition value_EX : foreign :=
  {| f_type := TNamed "main" "valueEX" (TStruct []);
     f_Error := "typed error by value";
     f_Error_fails := None;
     f_methods :=
       <["Code" := nullary {| v_type := TString;
                              v_val := VString ErrCodeUnknownError |}]>
         {[ "Detail" := nullary {| v_type := TAny; v_val := VIface None |} ]} |}.

(** [open_chain store err k a]: from the converter at [a], [k] links
    [next] lead to a converter without successor, and every converter on
    the way, the last included, hands [err] on: it is a
    [BaseErrorConverter], or a pass-through converter and [err] does not
    implement [EX]. *)
Inductive open_chain (store : list converter) (err : error) : nat -> nat -> Prop :=
| open_last a node :
    store !! a = Some node -> next node = None ->
    conv_type node = BaseErrorConverter
    ∨ (conv_type node = exErrorConverter ∧ assert_EX err = None) ->
    open_chain store err 0 a
| open_next k a node b :
    store !! a = Some node -> next node = Some b ->
    conv_type node = BaseErrorConverter
    ∨ (conv_type node = exErrorConverter ∧ assert_EX err = None) ->
    open_chain store err k b ->
    open_chain store err (S k) a.

(** A registry in which ["main.exploding"] is registered for details of
    the type [Exploding], and the typed error that [New] builds there. *)
Definition exploding_errorCodes : gmap string errorCodeRegistry :=
  snd (RegisterErrorCode 0 "main.exploding" "detail that cannot be marshalled"
         (Some (T_Exploding, VStruct [])) initial_errorCodes).

Definition exploding_error : ex :=
  {| code := "main.exploding"; detail := Some (T_Exploding, VStruct []) |}.

(** [var p *ex; var err error = p]: a nil [*ex] in a non-nil interface.
    Its type has the three methods of [*ex]; each of them dereferences
    the nil receiver. *)
Definition nil_ex : foreign :=
  {| f_type := T_ex;
     f_Error := EmptyString;
     f_Error_fails := Some (Panics_runtime nil_dereference);
     f_methods :=
       <["Code" := {| NumIn := 0; IsVariadic := false;
                      results := [{| v_type := TString; v_val := VString EmptyString |}];
                      fails := Some (Panics_runtime nil_dereference) |}]>
         {[ "Detail" := {| NumIn := 0; IsVariadic := false;
                           results := [{| v_type := TAny; v_val := VIface None |}];
                           fails := Some (Panics_runtime nil_dereference) |} ]} |}.

(** ** The registry is append-only *)

Lemma RegisterErrorCode_returns fuel code description detail r r' :
  RegisterErrorCode fuel code description detail r = (Return (), r') ->
  r !! code = None
  ∧ r' = <[code := {| entry_code := code; description := description;
                      detailType := reflect_TypeOf detail |}]> r.
Proof.
  unfold RegisterErrorCode. destruct (r !! code) as [entry|] eqn:Hc.
  - intros [= Hp _]. exfalso. revert Hp. unfold panic_with.
    destruct (New _ _ _ _) as [[v|]| |]; discriminate.
  - intros [= <-]. split; reflexivity.
Qed.

Lemma register_step_keeps r r' code entry :
  register_step r r' -> r !! code = Some entry -> r' !! code = Some entry.
Proof.
  intros (fuel & c & d & x & Hstep) Hc.
  apply RegisterErrorCode_returns in Hstep as [Hfresh ->].
  rewrite lookup_insert_ne; [exact Hc | congruence].
Qed.

Lemma later_keeps r r' code entry :
  later r r' -> r !! code = Some entry -> r' !! code = Some entry.
Proof.
  induction 1 as [|r1 r2 r3 Hstep _ IH]; [auto|].
  intros Hc. apply IH. eapply register_step_keeps; eauto.
Qed.

Lemma later_has_shape r r' code t :
  later r r' -> has_shape r code t -> has_shape r' code t.
Proof.
  intros Hl (entry & Hc & Ht). exists entry. split; [|exact Ht].
  eapply later_keeps; eauto.
Qed.

Lemma initial_reserved : reserved_registered initial_errorCodes.
Proof.
  repeat split; eexists; (split; [vm_compute; reflexivity | reflexivity]).
Qed.

Lemma reachable_reserved r : reachable r -> reserved_registered r.
Proof.
  intros Hr. destruct initial_reserved as (H0 & H1 & H2 & H3).
  repeat split; eapply later_has_shape; eauto.
Qed.

Lemma reachable_initial : reachable initial_errorCodes.
Proof. apply rtc_refl. Qed.

Lemma reachable_later r r' : reachable r -> later r r' -> reachable r'.
Proof. intros H1 H2. eapply rtc_trans; eauto. Qed.

(** ** New *)

Lemma New_unfold n r c d :
  New (S n) r c d =
  match r !! c with
  | None =>
      panic_with (New n r ErrCodeNotRegistered (box_ErrorEXDetail {| Code := c |}))
  | Some errorRegistry =>
      if decide (reflect_TypeOf d ≠ detailType errorRegistry) then
        expected ← Type_String_call (detailType errorRegistry);
        actual ← Type_String_call (reflect_TypeOf d);
        panic_with
          (New n r ErrDetailTypeMismatch
             (box_ErrorEXDetailTypeMismatch
                {| ExpectedType := expected; ActualType := actual |}))
      else Return (Some (ErrEX {| code := c; detail := d |}))
  end.
Proof. reflexivity. Qed.

(** A registered code with a detail of the registered type: [New] returns
    the typed error, whatever else the registry holds. *)
Lemma New_accepts r c d entry n :
  r !! c = Some entry -> reflect_TypeOf d = detailType entry ->
  New (S n) r c d = Return (Some (ErrEX {| code := c; detail := d |})).
Proof.
  intros Hc Ht. rewrite New_unfold, Hc.
  case_decide as Hne; [contradiction | reflexivity].
Qed.

Lemma New_has_shape r c d t n :
  has_shape r c t -> reflect_TypeOf d = Some t ->
  New (S n) r c d = Return (Some (ErrEX {| code := c; detail := d |})).
Proof.
  intros (entry & Hc & Ht) Hd. eapply New_accepts; eauto. congruence.
Qed.

Lemma New_not_registered r c d n :
  reserved_registered r -> r !! c = None ->
  New (S (S n)) r c d =
  Panic (PanicError (ErrEX {| code := ErrCodeNotRegistered;
                              detail := box_ErrorEXDetail {| Code := c |} |})).
Proof.
  intros (_ & H1 & _) Hc. rewrite New_unfold, Hc.
  rewrite (New_has_shape r _ _ _ n H1); reflexivity.
Qed.

Lemma New_mismatch r c d entry te td n :
  reserved_registered r -> r !! c = Some entry ->
  detailType entry = Some te -> reflect_TypeOf d = Some td -> td ≠ te ->
  New (S (S n)) r c d =
  Panic (PanicError
           (ErrEX {| code := ErrDetailTypeMismatch;
                     detail := box_ErrorEXDetailTypeMismatch
                                 {| ExpectedType := Type_String te;
                                    ActualType := Type_String td |} |})).
Proof.
  intros (_ & _ & _ & H3) Hc He Hd Hne. rewrite New_unfold, Hc, He, Hd.
  case_decide as Hdec; [|congruence]. cbn -[New Type_String].
  rewrite (New_has_shape r _ _ _ n H3); reflexivity.
Qed.

(** A mismatch in which one of the two types is the [nil] of
    [reflect.Type]: the call of [String] on it stops [New] before it has
    built the error to panic with. *)
Lemma New_nil_type r c d entry n :
  r !! c = Some entry -> reflect_TypeOf d ≠ detailType entry ->
  detailType entry = None ∨ reflect_TypeOf d = None ->
  New (S n) r c d = Panic (RuntimeError nil_dereference).
Proof.
  intros Hc Hne Hnil. rewrite New_unfold, Hc.
  case_decide as Hdec; [|contradiction].
  destruct (detailType entry) as [te|]; [|reflexivity].
  destruct Hnil as [Hnil|Hnil]; [discriminate|]. rewrite Hnil. reflexivity.
Qed.

Lemma panic_with_OutOfFuel {A} (m : outcome EX) :
  panic_with (A := A) m ≠ OutOfFuel -> m ≠ OutOfFuel.
Proof. intros H ->. apply H. reflexivity. Qed.

(** More fuel does not change what a call that ended has done. *)
Lemma New_more_fuel n r c d :
  New n r c d ≠ OutOfFuel -> New (S n) r c d = New n r c d.
Proof.
  revert c d. induction n as [|n IH]; intros c d H; [contradiction H; reflexivity|].
  rewrite (New_unfold (S n) r c d). rewrite (New_unfold n r c d) in H |- *.
  destruct (r !! c) as [entry|].
  - case_decide; [|reflexivity].
    destruct (Type_String_call (detailType entry)) as [expected| |]; try reflexivity.
    destruct (Type_String_call (reflect_TypeOf d)) as [actual| |]; try reflexivity.
    cbn -[New] in *. apply panic_with_OutOfFuel in H. rewrite IH; [reflexivity | exact H].
  - apply panic_with_OutOfFuel in H. rewrite IH; [reflexivity | exact H].
Qed.

Lemma New_fuel_le (n m : nat) r c d :
  (n ≤ m)%nat -> New n r c d ≠ OutOfFuel -> New m r c d = New n r c d.
Proof.
  induction 1 as [|m Hle IH]; [reflexivity|].
  intros H. rewrite New_more_fuel; rewrite IH; auto.
Qed.

(** ** Is *)

Lemma Value_Call_nullary m :
  NumIn m = 0 -> IsVariadic m = false -> fails m = None ->
  Value_Call m 0 = Return (results m).
Proof.
  intros Hin Hvar Hpan. unfold Value_Call. rewrite Hin, Hvar, Hpan.
  case_decide; [lia|]. rewrite bool_decide_eq_false_2 by lia. reflexivity.
Qed.

Section IsFacts.
Context (json_Marshal : any -> Marshal_result).
Context (r : gmap string errorCodeRegistry).

Lemma Is_not_registered n err c :
  reserved_registered r -> r !! c = None ->
  Is json_Marshal (S (S n)) r err c =
  Panic (PanicError (ErrEX {| code := ErrCodeNotRegistered;
                              detail := box_ErrorEXDetail {| Code := c |} |})).
Proof.
  intros (_ & H1 & _) Hc. unfold Is. rewrite Hc.
  rewrite (New_has_shape r _ _ _ (S n) H1); reflexivity.
Qed.

Lemma Is_nil fuel c : is_Some (r !! c) -> Is json_Marshal fuel r None c = Return false.
Proof. intros [entry Hc]. unfold Is. rewrite Hc. reflexivity. Qed.

(** The guard on the kind: anything that is not a pointer is refused
    before its methods are looked at. *)
Lemma Is_not_pointer fuel v c :
  is_Some (r !! c) -> ValueOf_Kind v ≠ reflect_Ptr ->
  Is json_Marshal fuel r (Some v) c = Return false.
Proof.
  intros [entry Hc] Hk. unfold Is. rewrite Hc.
  case_decide; [reflexivity | contradiction].
Qed.

Lemma Is_no_Code_method fuel v c :
  is_Some (r !! c) -> MethodByName json_Marshal v "Code" = None ->
  Is json_Marshal fuel r (Some v) c = Return false.
Proof.
  intros [entry Hc] Hm. unfold Is. rewrite Hc, Hm.
  case_decide; reflexivity.
Qed.

(** A pointer whose method [Code] can be called without arguments. *)
Lemma Is_pointer_call fuel v c m :
  is_Some (r !! c) -> ValueOf_Kind v = reflect_Ptr ->
  MethodByName json_Marshal v "Code" = Some m ->
  Is json_Marshal fuel r (Some v) c =
  codeValue ← Value_Call m 0;
  match codeValue with
  | [codeValue0] =>
      if decide (Value_Kind codeValue0 = reflect_String)
      then Return (bool_decide (Value_String codeValue0 = c))
      else Return false
  | _ => Return false
  end.
Proof.
  intros [entry Hc] Hk Hm. unfold Is. rewrite Hc, Hm.
  case_decide; [contradiction|].
  destruct (Value_Call m 0) as [[|v0 [|v1 l]]| |]; cbn; try reflexivity.
  repeat case_decide; congruence.
Qed.

Lemma Is_offers_Code fuel v c s :
  is_Some (r !! c) -> ValueOf_Kind v = reflect_Ptr ->
  offers_Code json_Marshal v s ->
  Is json_Marshal fuel r (Some v) c = Return (bool_decide (s = c)).
Proof.
  intros Hc Hk (m & out & Hm & Hin & Hvar & Hpan & Hres & Hkind & Hstr).
  rewrite (Is_pointer_call fuel v c m Hc Hk Hm).
  rewrite (Value_Call_nullary m Hin Hvar Hpan), Hres. cbn.
  case_decide; [subst s; reflexivity | contradiction].
Qed.

(** A [*ex]: the comparison of its code with the target. *)
Lemma Is_ex fuel e c :
  is_Some (r !! c) ->
  Is json_Marshal fuel r (Some (ErrEX e)) c = Return (bool_decide (code e = c)).
Proof.
  intros Hc. apply Is_offers_Code; [exact Hc | reflexivity |].
  eexists _, _. repeat split; reflexivity.
Qed.

(** A pointer whose method [Code] has parameters: the call through
    [reflect] panics, and so does [Is]. *)
Lemma Is_Code_with_parameters fuel v c m :
  is_Some (r !! c) -> ValueOf_Kind v = reflect_Ptr ->
  MethodByName json_Marshal v "Code" = Some m ->
  (0 < (if IsVariadic m then NumIn m - 1 else NumIn m))%nat ->
  Is json_Marshal fuel r (Some v) c =
  Panic (RuntimeError "reflect: Call with too few input arguments").
Proof.
  intros Hc Hk Hm Hn. rewrite (Is_pointer_call fuel v c m Hc Hk Hm).
  unfold Value_Call. case_decide; [reflexivity | contradiction].
Qed.
End IsFacts.

(** ** ConvertError *)

Section ConvertErrorFacts.
Context (json_Marshal : any -> Marshal_result).
Context (r : gmap string errorCodeRegistry).
Context (store : list converter).

Lemma ConvertError_unfold n c err :
  ConvertError json_Marshal r store (S n) c err =
  match c ≫= (store !!.) with
  | None => Panic (RuntimeError nil_dereference)
  | Some node =>
      match conv_type node with
      | BaseErrorConverter =>
          BaseErrorConverter_ConvertError
            (ConvertError json_Marshal r store n) node err
      | unknownErrorConverter =>
          unknownErrorConverter_ConvertError json_Marshal r n node err
      | exErrorConverter =>
          exErrorConverter_ConvertError
            (ConvertError json_Marshal r store n) node err
      | mockErrorConverter =>
          mockErrorConverter_ConvertError json_Marshal r n
            (ConvertError json_Marshal r store n) node err
      end
  end.
Proof. reflexivity. Qed.

Lemma ConvertError_at n a node err :
  store !! a = Some node ->
  ConvertError json_Marshal r store (S n) (Some a) err =
  match conv_type node with
  | BaseErrorConverter =>
      BaseErrorConverter_ConvertError
        (ConvertError json_Marshal r store n) node err
  | unknownErrorConverter =>
      unknownErrorConverter_ConvertError json_Marshal r n node err
  | exErrorConverter =>
      exErrorConverter_ConvertError
        (ConvertError json_Marshal r store n) node err
  | mockErrorConverter =>
      mockErrorConverter_ConvertError json_Marshal r n
        (ConvertError json_Marshal r store n) node err
  end.
Proof. intros Ha. rewrite ConvertError_unfold. cbn. rewrite Ha. reflexivity. Qed.

Lemma ConvertError_more_fuel n c err :
  ConvertError json_Marshal r store n c err ≠ OutOfFuel ->
  ConvertError json_Marshal r store (S n) c err
  = ConvertError json_Marshal r store n c err.
Proof.
  revert c err. induction n as [|n IH]; intros c err H; [contradiction H; reflexivity|].
  rewrite (ConvertError_unfold (S n) c err).
  rewrite (ConvertError_unfold n c err) in H |- *.
  destruct (c ≫= (store !!.)) as [node|]; [|reflexivity].
  destruct (conv_type node).
  - unfold BaseErrorConverter_ConvertError in *.
    destruct (next node); [apply IH, H | reflexivity].
  - unfold unknownErrorConverter_ConvertError in *.
    destruct (Error_call json_Marshal err) as [msg| |]; try reflexivity.
    cbn -[New] in *. apply New_more_fuel, H.
  - unfold exErrorConverter_ConvertError, BaseErrorConverter_ConvertError in *.
    destruct (assert_EX err); [reflexivity|].
    destruct (next node); [apply IH, H | reflexivity].
  - unfold mockErrorConverter_ConvertError in *.
    destruct (Error_call json_Marshal err) as [msg| |]; try reflexivity.
    cbn -[New] in *. case_decide; [apply IH, H | apply New_more_fuel, H].
Qed.

Lemma ConvertError_fuel_le (n m : nat) c err :
  (n ≤ m)%nat -> ConvertError json_Marshal r store n c err ≠ OutOfFuel ->
  ConvertError json_Marshal r store m c err
  = ConvertError json_Marshal r store n c err.
Proof.
  induction 1 as [|m Hle IH]; [reflexivity|].
  intros H. rewrite ConvertError_more_fuel; rewrite IH; auto.
Qed.

(** A converter whose [ConvertError] is the call of its successor's: the
    two calls end alike, or neither ends. *)
Lemma yields_delegate c succ err :
  (∀ n, ConvertError json_Marshal r store (S n) c err
        = ConvertError json_Marshal r store n succ err) ->
  ∀ res, yields (λ n, ConvertError json_Marshal r store n succ err) res
         ↔ yields (λ n, ConvertError json_Marshal r store n c err) res.
Proof.
  intros Heq res. split; intros [Hres [n Hn]]; (split; [exact Hres|]).
  - exists (S n). rewrite Heq. exact Hn.
  - destruct n as [|n]; [cbn in Hn; congruence|].
    exists n. rewrite <- Heq. exact Hn.
Qed.
End ConvertErrorFacts.

Lemma test_errorCodes_reachable : reachable test_errorCodes.
Proof.
  eapply rtc_r; [apply rtc_refl|].
  exists 0, "test.is", "test description", (Some (T_Message, VStruct [VString EmptyString])).
  reflexivity.
Qed.

(** ** The claims *)

(** C1 (the code departs from it).  The claim: [New(code, detail)] panics
    with NotRegistered for an unregistered code, panics with
    DetailTypeMismatch carrying the expected and the actual type when the
    type of [detail] differs from the registered one, and returns the typed
    error otherwise.  Here the code is evaluated where it departs: right
    after [init], [errorex.000] is registered with the type
    [errorex.UnknownErrorDetail]; a nil interface as detail has no type, so
    the types differ, and [New] stops with a nil dereference of the Go
    runtime while it asks the missing type for its name, before any
    DetailTypeMismatch error exists. *)
Theorem New_nil_detail_runtime_error n :
  has_shape initial_errorCodes ErrCodeUnknownError T_UnknownErrorDetail
  ∧ reflect_TypeOf None ≠ Some T_UnknownErrorDetail
  ∧ New (S n) initial_errorCodes ErrCodeUnknownError None
    = Panic (RuntimeError nil_dereference).
Proof.
  destruct initial_reserved as (H0 & _). split; [exact H0|]. split; [discriminate|].
  destruct H0 as (entry & Hc & Ht).
  apply (New_nil_type _ _ _ entry); [exact Hc | rewrite Ht; discriminate | right; reflexivity].
Qed.

(** C7.  For a registered code [c] and a detail [d] of the registered
    type, [New c d] returns a typed error [e] with [e.Code() = c] and
    [e.Detail() = d]; the accessors are total functions of the stored
    fields. *)
Theorem New_round_trip r c d entry n :
  r !! c = Some entry -> reflect_TypeOf d = detailType entry ->
  ∃ e, New (S n) r c d = Return (Some (ErrEX e))
       ∧ ex_Code e = c ∧ ex_Detail e = d.
Proof.
  intros Hc Ht. eexists. split; [eapply New_accepts; eauto|]. split; reflexivity.
Qed.

Lemma New_round_trip_witness :
  ∃ e, New 1 test_errorCodes "test.is"
         (Some (T_Message, VStruct [VString "test detail"]))
       = Return (Some (ErrEX e))
       ∧ ex_Code e = "test.is"
       ∧ ex_Detail e = Some (T_Message, VStruct [VString "test detail"]).
Proof.
  apply (New_round_trip test_errorCodes "test.is"
           (Some (T_Message, VStruct [VString "test detail"]))
           {| entry_code := "test.is"; description := "test description";
              detailType := Some T_Message |} 0).
  - vm_compute. reflexivity.
  - reflexivity.
Defined.

(** C2.  [init] registers the four reserved codes, each by a first call
    that returns.  In a registry the package can be in after that, a call
    [RegisterErrorCode(c, ...)] for a code [c] not yet registered returns
    and inserts the entry for [c]; from then on, whatever else gets
    registered, every call [RegisterErrorCode(c, ...)] panics with the
    typed error of code [errorex.002] whose detail carries [c], and leaves
    the registry as it was.  The same holds for every code that is
    already registered, the reserved ones included. *)
Theorem RegisterErrorCode_once r c description d fuel :
  reachable r ->
  init fuel ∅ = (Return (), initial_errorCodes)
  ∧ (r !! c = None ->
     let entry := {| entry_code := c; description := description;
                     detailType := reflect_TypeOf d |} in
     RegisterErrorCode fuel c description d r = (Return (), <[c := entry]> r)
     ∧ <[c := entry]> r !! c = Some entry
     ∧ ∀ r', later (<[c := entry]> r) r' ->
         ∀ fuel' description' d',
           RegisterErrorCode (S fuel') c description' d' r'
           = (Panic (PanicError
                       (ErrEX {| code := ErrCodeAlreadyRegistered;
                                 detail := box_ErrorEXDetail {| Code := c |} |})),
              r'))
  ∧ (is_Some (r !! c) ->
     ∀ fuel' description' d',
       RegisterErrorCode (S fuel') c description' d' r
       = (Panic (PanicError
                   (ErrEX {| code := ErrCodeAlreadyRegistered;
                             detail := box_ErrorEXDetail {| Code := c |} |})),
          r)).
Proof.
  intros Hr.
  assert (Hdup : ∀ r1, reachable r1 -> is_Some (r1 !! c) ->
            ∀ fuel' description' d',
              RegisterErrorCode (S fuel') c description' d' r1
              = (Panic (PanicError
                          (ErrEX {| code := ErrCodeAlreadyRegistered;
                                    detail := box_ErrorEXDetail {| Code := c |} |})),
                 r1)).
  { intros r1 Hr1 [entry1 Hc1] fuel' description' d'.
    unfold RegisterErrorCode. rewrite Hc1.
    destruct (reachable_reserved r1 Hr1) as (_ & _ & H2 & _).
    rewrite (New_has_shape r1 _ _ _ fuel' H2); reflexivity. }
  split; [|split].
  - unfold init, and_then. reflexivity.
  - intros Hc entry.
    assert (Hstep : RegisterErrorCode fuel c description d r = (Return (), <[c := entry]> r)).
    { unfold RegisterErrorCode. rewrite Hc. reflexivity. }
    split; [exact Hstep|]. split; [apply lookup_insert_eq|].
    intros r' Hl. apply Hdup.
    + eapply reachable_later; [|exact Hl].
      eapply rtc_r; [exact Hr|]. exists fuel, c, description, d. exact Hstep.
    + exists entry. eapply later_keeps; [exact Hl | apply lookup_insert_eq].
  - intros Hc. apply Hdup; assumption.
Qed.

Lemma RegisterErrorCode_once_witness :
  RegisterErrorCode 0 "test.is" "test description"
    (Some (T_Message, VStruct [VString EmptyString])) initial_errorCodes
  = (Return (), test_errorCodes)
  ∧ RegisterErrorCode 1 "test.is" "once more" None test_errorCodes
    = (Panic (PanicError
                (ErrEX {| code := ErrCodeAlreadyRegistered;
                          detail := box_ErrorEXDetail {| Code := "test.is" |} |})),
       test_errorCodes).
Proof.
  destruct (RegisterErrorCode_once initial_errorCodes "test.is" "test description"
              (Some (T_Message, VStruct [VString EmptyString])) 0 reachable_initial)
    as (_ & Hfirst & _).
  assert (Hfresh : initial_errorCodes !! "test.is" = None) by (vm_compute; reflexivity).
  destruct (Hfirst Hfresh) as (H1 & _ & H3). split.
  - exact H1.
  - exact (H3 _ (rtc_refl _ _) 0 "once more" None).
Defined.

(** C3, the claim as stated fails: [Error()] raises when [json.Marshal]
    does.  [New] builds a typed error for a detail of the type
    [Exploding], whose [MarshalJSON] panics; [json.Marshal] hands that
    panic on, [Error()] does not recover it, and so [Error()] panics with
    it. *)
Lemma ex_Error_panics_counterexample :
  New 1 exploding_errorCodes "main.exploding" (Some (T_Exploding, VStruct []))
  = Return (Some (ErrEX exploding_error))
  ∧ sample_Marshal (detail exploding_error)
    = Marshal_fails (Panics_value (Some (TString, VString "boom")))
  ∧ ex_Error sample_Marshal exploding_error
    = Panic (PanicAny (Some (TString, VString "boom"))).
Proof. split; [vm_compute; reflexivity|]. split; reflexivity. Qed.

(** C3, amended.  For every typed error and whatever [json.Marshal] does
    for its detail: when the detail serializes to [detailJSON], [Error()]
    returns exactly [{"code": "<code>", "detail": <detailJSON>}]; when
    [json.Marshal] returns the error [cause], [Error()] returns exactly
    [{"code": "<code>", "detail": "failed to marshal detail: <cause>"}]
    instead of failing; [Error()] fails only when [json.Marshal] does,
    because a [MarshalJSON] method of the detail panics or does not end,
    and then in the same way.  (In [with_quotes] an apostrophe stands for
    a double quote.) *)
Theorem ex_Error_form (json_Marshal : any -> Marshal_result) (e : ex) :
  (∃ detailJSON,
      json_Marshal (detail e) = Marshal_ok detailJSON
      ∧ ex_Error json_Marshal e
        = Return (with_quotes "{'code': '" ++ code e
                  ++ with_quotes "', 'detail': " ++ detailJSON ++ "}"))
  ∨ (∃ cause,
        json_Marshal (detail e) = Marshal_error cause
        ∧ ex_Error json_Marshal e
          = Return (with_quotes "{'code': '" ++ code e
                    ++ with_quotes "', 'detail': 'failed to marshal detail: " ++ cause
                    ++ with_quotes "'}"))
  ∨ (∃ x,
        json_Marshal (detail e) = Marshal_fails x
        ∧ ex_Error json_Marshal e = failed x).
Proof.
  unfold ex_Error. destruct (json_Marshal (detail e)) as [detailJSON|cause|x].
  - left. exists detailJSON. split; reflexivity.
  - right. left. exists cause. split; reflexivity.
  - right. right. exists x. split; reflexivity.
Qed.

(** C4 (the code departs from it).  The claim: [Is] panics with
    NotRegistered for an unregistered code, and for a registered code it
    returns false for a nil error and for every error without the typed
    error capability, true for a typed error and its own code, false for
    a typed error and another registered code.  Here the code is
    evaluated where it departs: [&argErr{}] has a method [Code] that
    takes a parameter, so it has no [Code()] accessor, and [Is] does not
    return false for it but panics inside [reflect.Value.Call]. *)
Theorem Is_Code_with_parameter_panics (json_Marshal : any -> Marshal_result)
    (fuel : nat) :
  is_Some (initial_errorCodes !! ErrCodeUnknownError)
  ∧ ValueOf_Kind (ErrForeign argErr) = reflect_Ptr
  ∧ (∀ s, ¬ offers_Code json_Marshal (ErrForeign argErr) s)
  ∧ Is json_Marshal fuel initial_errorCodes (Some (ErrForeign argErr))
       ErrCodeUnknownError
    = Panic (RuntimeError "reflect: Call with too few input arguments").
Proof.
  assert (Hc : is_Some (initial_errorCodes !! ErrCodeUnknownError)).
  { destruct initial_reserved as ((entry & Hc & _) & _). exists entry. exact Hc. }
  split; [exact Hc|]. split; [reflexivity|]. split.
  - intros s (m & out & Hm & Hin & _). cbn in Hm.
    rewrite lookup_singleton_eq in Hm. injection Hm as <-. discriminate.
  - eapply Is_Code_with_parameters; [exact Hc | reflexivity | |].
    + cbn. apply lookup_singleton_eq.
    + cbn. lia.
Qed.

(** C5, the claim as stated fails: [valueErr] passed as a value has the
    accessor [Code() string], which returns ["errorex.000"], and this code
    is registered; yet [Is] returns false for it. *)
Lemma Is_value_receiver_counterexample :
  is_Some (initial_errorCodes !! ErrCodeUnknownError)
  ∧ offers_Code sample_Marshal (ErrForeign valueErr) ErrCodeUnknownError
  ∧ Is sample_Marshal 2 initial_errorCodes (Some (ErrForeign valueErr))
       ErrCodeUnknownError
    = Return false.
Proof.
  assert (Hc : is_Some (initial_errorCodes !! ErrCodeUnknownError)).
  { destruct initial_reserved as ((entry & Hc & _) & _). exists entry. exact Hc. }
  split; [exact Hc|]. split.
  - eexists _, _. split; [cbn; apply lookup_singleton_eq|]. repeat split; reflexivity.
  - apply Is_not_pointer; [exact Hc | discriminate].
Qed.

(** C5, amended.  For a registered code [c] and a non-nil error [v] with
    an accessor [Code()] without parameters whose result is of kind
    String and holds [s]: when [v] is a pointer, [Is(v, c)] returns true
    exactly when [s = c], whatever the type pointed to; when [v] is of any
    other kind, [Is(v, c)] returns false. *)
Theorem Is_Code_accessor (json_Marshal : any -> Marshal_result) r fuel v c s :
  is_Some (r !! c) -> offers_Code json_Marshal v s ->
  (ValueOf_Kind v = reflect_Ptr ->
   Is json_Marshal fuel r (Some v) c = Return (bool_decide (s = c)))
  ∧ (ValueOf_Kind v ≠ reflect_Ptr ->
     Is json_Marshal fuel r (Some v) c = Return false).
Proof.
  intros Hc Ho. split; intros Hk.
  - apply Is_offers_Code; assumption.
  - apply Is_not_pointer; assumption.
Qed.

Lemma Is_Code_accessor_witness :
  Is sample_Marshal 0 test_errorCodes (Some (ErrForeign ptrErr)) "test.is" = Return true
  ∧ Is sample_Marshal 0 test_errorCodes (Some (ErrForeign ptrErr)) ErrCodeUnknownError
    = Return false.
Proof.
  assert (H1 : is_Some (test_errorCodes !! "test.is")) by (vm_compute; eauto).
  assert (H0 : is_Some (test_errorCodes !! ErrCodeUnknownError)) by (vm_compute; eauto).
  assert (Ho : offers_Code sample_Marshal (ErrForeign ptrErr) "test.is").
  { eexists _, _. split; [cbn; apply lookup_singleton_eq|]. repeat split; reflexivity. }
  split.
  - exact (proj1 (Is_Code_accessor sample_Marshal test_errorCodes 0
                    (ErrForeign ptrErr) "test.is" "test.is" H1 Ho) eq_refl).
  - exact (proj1 (Is_Code_accessor sample_Marshal test_errorCodes 0
                    (ErrForeign ptrErr) ErrCodeUnknownError "test.is" H0 Ho) eq_refl).
Defined.

Lemma leads_to_not_nil r store u k c : leads_to r store u k c -> is_Some c.
Proof. destruct 1; eauto. Qed.

(** C6, the claim as stated fails for the nil error, which is a value of
    the parameter type [error]: the catch-all converter calls
    [err.Error()] first, and on a nil interface this call is a nil
    dereference of the runtime. *)
Lemma unknownErrorConverter_nil_counterexample :
  base_store !! 0 = Some {| conv_type := unknownErrorConverter; next := None |}
  ∧ ConvertError sample_Marshal initial_errorCodes base_store 3 (Some 0) None
    = Panic (RuntimeError nil_dereference).
Proof. split; reflexivity. Qed.

(** C6, amended.  For every error [v] that is not nil and whose
    [Error()] returns, [ConvertError] of the catch-all converter returns
    a typed error that is not nil, whose code is [errorex.000] and whose
    detail is [UnknownErrorDetail] holding what [v.Error()] returned; so
    every chain of converters that ends in the catch-all converter
    returns a typed error that is not nil for every such error handed to
    its head.  The catch-all converter fails only as [v.Error()] fails:
    when that call panics, [ConvertError] panics with the same value, and
    when it does not end, neither does [ConvertError]. *)
Theorem unknownErrorConverter_total (json_Marshal : any -> Marshal_result)
    r store u node v n :
  reachable r -> store !! u = Some node ->
  conv_type node = unknownErrorConverter ->
  (∀ msg, Error_of json_Marshal v = Return msg ->
     ConvertError json_Marshal r store (S (S n)) (Some u) (Some v)
     = Return (Some (ErrEX {| code := ErrCodeUnknownError;
                              detail := box_UnknownErrorDetail
                                          {| Detail := msg |} |}))
     ∧ ∀ k c, leads_to r store u k c ->
         ∃ x, ConvertError json_Marshal r store (S (S (k + n))) c (Some v)
              = Return (Some x))
  ∧ (∀ p, Error_of json_Marshal v = Panic p ->
       ConvertError json_Marshal r store (S (S n)) (Some u) (Some v) = Panic p)
  ∧ (Error_of json_Marshal v = OutOfFuel ->
     ConvertError json_Marshal r store (S (S n)) (Some u) (Some v) = OutOfFuel).
Proof.
  intros Hr Hu Ht. split; [|split].
  - intros msg Hmsg.
    assert (Hlast : ∀ m, ConvertError json_Marshal r store (S (S m)) (Some u) (Some v)
              = Return (Some (ErrEX {| code := ErrCodeUnknownError;
                                       detail := box_UnknownErrorDetail
                                                   {| Detail := msg |} |}))).
    { intros m. rewrite (ConvertError_at _ _ _ _ _ node _ Hu), Ht.
      unfold unknownErrorConverter_ConvertError, Error_call. rewrite Hmsg.
      cbn -[New].
      destruct (reachable_reserved r Hr) as (H0 & _).
      apply (New_has_shape r _ _ _ m H0). reflexivity. }
    split; [apply Hlast|].
    intros k c Hchain. induction Hchain as [|k a nd Ha Hty Hrest IH].
    + eexists. apply Hlast.
    + destruct IH as [x IH]. destruct (leads_to_not_nil _ _ _ _ _ Hrest) as [b Hb].
      rewrite (ConvertError_at _ _ _ _ _ nd _ Ha).
      destruct Hty as [Hty|[Hty|[Hty Hmock]]]; rewrite Hty.
      * unfold BaseErrorConverter_ConvertError. rewrite Hb in IH |- *. eauto.
      * unfold exErrorConverter_ConvertError, BaseErrorConverter_ConvertError.
        destruct (assert_EX (Some v)) as [ex|]; [eauto|].
        rewrite Hb in IH |- *. eauto.
      * unfold mockErrorConverter_ConvertError, Error_call. rewrite Hmsg.
        cbn -[New ConvertError].
        case_decide; [eauto|].
        erewrite (New_has_shape r _ _ _ _ Hmock); [eauto | reflexivity].
  - intros p Hp. rewrite (ConvertError_at _ _ _ _ _ node _ Hu), Ht.
    unfold unknownErrorConverter_ConvertError, Error_call. rewrite Hp. reflexivity.
  - intros Hp. rewrite (ConvertError_at _ _ _ _ _ node _ Hu), Ht.
    unfold unknownErrorConverter_ConvertError, Error_call. rewrite Hp. reflexivity.
Qed.

Lemma mock_errorCodes_reachable : reachable mock_errorCodes.
Proof.
  eapply rtc_r; [apply rtc_refl|].
  exists 0, ErrCodeMockError, "test description",
    (box_MockErrorDetail {| mock_Detail := EmptyString |}).
  reflexivity.
Qed.

Lemma mock_errorCodes_shape : has_shape mock_errorCodes ErrCodeMockError T_MockErrorDetail.
Proof. eexists. split; [vm_compute; reflexivity | reflexivity]. Qed.

Lemma unknownErrorConverter_total_witness :
  ConvertError sample_Marshal mock_errorCodes chain_store 2 (Some 0)
    (Some (ErrForeign some_error))
  = Return (Some (ErrEX {| code := ErrCodeUnknownError;
                           detail := box_UnknownErrorDetail
                                       {| Detail := "some error" |} |}))
  ∧ (∃ x, ConvertError sample_Marshal mock_errorCodes chain_store 4 (Some 2)
            (Some (ErrForeign some_error))
          = Return (Some x))
  ∧ ConvertError sample_Marshal mock_errorCodes chain_store 2 (Some 0)
      (Some (ErrEX exploding_error))
    = Panic (PanicAny (Some (TString, VString "boom"))).
Proof.
  destruct (unknownErrorConverter_total sample_Marshal mock_errorCodes chain_store 0
              {| conv_type := unknownErrorConverter; next := None |}
              (ErrForeign some_error) 0
              mock_errorCodes_reachable eq_refl eq_refl) as [Hret _].
  destruct (Hret "some error" eq_refl) as [H1 H2].
  destruct (unknownErrorConverter_total sample_Marshal mock_errorCodes chain_store 0
              {| conv_type := unknownErrorConverter; next := None |}
              (ErrEX exploding_error) 0
              mock_errorCodes_reachable eq_refl eq_refl) as (_ & Hpanic & _).
  split; [exact H1|]. split; [|exact (Hpanic _ eq_refl)].
  apply (H2 2 (Some 2)).
  apply (leads_next _ _ _ 1 2 {| conv_type := exErrorConverter; next := Some 1 |});
    [reflexivity | right; left; reflexivity |].
  apply (leads_next _ _ _ 0 1 {| conv_type := mockErrorConverter; next := Some 0 |});
    [reflexivity | right; right; split; [reflexivity | exact mock_errorCodes_shape] |].
  apply leads_here.
Defined.

(** C8.  [ConvertError] of the pass-through converter returns an error
    that implements [EX] as it is: the result is the argument itself, and
    the registry is not consulted.  For every other argument, the nil
    error included, it does what its [BaseErrorConverter] does: with a
    successor, the call is the successor's call on the same argument and
    ends as that call ends; without one, it returns nil. *)
Theorem exErrorConverter_passthrough (json_Marshal : any -> Marshal_result)
    r store a node :
  store !! a = Some node -> conv_type node = exErrorConverter ->
  (∀ n v, implements_EX v = true ->
     ConvertError json_Marshal r store (S n) (Some a) (Some v) = Return (Some v))
  ∧ (∀ err, assert_EX err = None ->
       (next node = None ->
        ∀ n, ConvertError json_Marshal r store (S n) (Some a) err = Return None)
       ∧ (is_Some (next node) ->
          (∀ n, ConvertError json_Marshal r store (S n) (Some a) err
                = ConvertError json_Marshal r store n (next node) err)
          ∧ ∀ res,
              yields (λ n, ConvertError json_Marshal r store n (next node) err) res
              ↔ yields (λ n, ConvertError json_Marshal r store n (Some a) err) res)).
Proof.
  intros Ha Ht. split.
  - intros n v Hv. rewrite (ConvertError_at _ _ _ _ _ node _ Ha), Ht.
    unfold exErrorConverter_ConvertError, assert_EX. rewrite Hv. reflexivity.
  - intros err Herr.
    assert (Hbase : ∀ n, ConvertError json_Marshal r store (S n) (Some a) err
              = BaseErrorConverter_ConvertError
                  (ConvertError json_Marshal r store n) node err).
    { intros n. rewrite (ConvertError_at _ _ _ _ _ node _ Ha), Ht.
      unfold exErrorConverter_ConvertError. rewrite Herr. reflexivity. }
    split.
    + intros Hnext n. rewrite Hbase. unfold BaseErrorConverter_ConvertError.
      rewrite Hnext. reflexivity.
    + intros [b Hnext].
      assert (Heq : ∀ n, ConvertError json_Marshal r store (S n) (Some a) err
                = ConvertError json_Marshal r store n (next node) err).
      { intros n. rewrite Hbase. unfold BaseErrorConverter_ConvertError.
        rewrite Hnext. reflexivity. }
      split; [exact Heq|]. apply yields_delegate, Heq.
Qed.

Lemma exErrorConverter_passthrough_witness :
  ConvertError sample_Marshal ∅ chain_store 1 (Some 2) (Some (ErrForeign foreign_EX))
  = Return (Some (ErrForeign foreign_EX))
  ∧ ConvertError sample_Marshal mock_errorCodes chain_store 3 (Some 2)
      (Some (ErrForeign some_error))
    = ConvertError sample_Marshal mock_errorCodes chain_store 2 (Some 1)
        (Some (ErrForeign some_error)).
Proof.
  split.
  - exact (proj1 (exErrorConverter_passthrough sample_Marshal ∅ chain_store 2
                    {| conv_type := exErrorConverter; next := Some 1 |}
                    eq_refl eq_refl)
             0 (ErrForeign foreign_EX) eq_refl).
  - exact (proj1 (proj2 (proj2 (exErrorConverter_passthrough sample_Marshal
                                  mock_errorCodes chain_store 2
                                  {| conv_type := exErrorConverter; next := Some 1 |}
                                  eq_refl eq_refl)
                           (Some (ErrForeign some_error)) eq_refl)
                    (ex_intro _ 1 eq_refl))
             2).
Defined.

(** C9.  [ConvertError] of a [BaseErrorConverter] without successor
    returns nil for every argument.  [SetNext] stores the successor in
    the converter; after it, [ConvertError] of the converter is the call
    of the successor's [ConvertError] on the same argument, for every
    argument, and ends as that call ends. *)
Theorem BaseErrorConverter_delegates (json_Marshal : any -> Marshal_result)
    r store a node :
  store !! a = Some node -> conv_type node = BaseErrorConverter ->
  (next node = None ->
   ∀ n err, ConvertError json_Marshal r store (S n) (Some a) err = Return None)
  ∧ ∀ b,
      let store' := <[a := {| conv_type := BaseErrorConverter; next := Some b |}]> store in
      SetNext store (Some a) (Some b) = (Return (), store')
      ∧ (∀ n err, ConvertError json_Marshal r store' (S n) (Some a) err
                  = ConvertError json_Marshal r store' n (Some b) err)
      ∧ ∀ err res,
          yields (λ n, ConvertError json_Marshal r store' n (Some b) err) res
          ↔ yields (λ n, ConvertError json_Marshal r store' n (Some a) err) res.
Proof.
  intros Ha Ht. split.
  - intros Hnext n err. rewrite (ConvertError_at _ _ _ _ _ node _ Ha), Ht.
    unfold BaseErrorConverter_ConvertError. rewrite Hnext. reflexivity.
  - intros b store'.
    assert (Ha' : store' !! a
                  = Some {| conv_type := BaseErrorConverter; next := Some b |}).
    { apply list_lookup_insert_eq. eapply lookup_lt_Some, Ha. }
    assert (Heq : ∀ n err, ConvertError json_Marshal r store' (S n) (Some a) err
              = ConvertError json_Marshal r store' n (Some b) err).
    { intros n err. rewrite (ConvertError_at _ _ _ _ _ _ _ Ha'). reflexivity. }
    split; [|split].
    + unfold SetNext. cbn. rewrite Ha, Ht. reflexivity.
    + exact Heq.
    + intros err. apply yields_delegate. intros n. apply Heq.
Qed.

Lemma BaseErrorConverter_delegates_witness :
  ConvertError sample_Marshal initial_errorCodes base_store 1 (Some 1)
    (Some (ErrForeign some_error))
  = Return None
  ∧ ConvertError sample_Marshal initial_errorCodes
      (snd (SetNext base_store (Some 1) (Some 0))) 3 (Some 1)
      (Some (ErrForeign some_error))
    = Return (Some (ErrEX {| code := ErrCodeUnknownError;
                             detail := box_UnknownErrorDetail
                                         {| Detail := "some error" |} |})).
Proof.
  destruct (BaseErrorConverter_delegates sample_Marshal initial_errorCodes base_store 1
              {| conv_type := BaseErrorConverter; next := None |} eq_refl eq_refl)
    as [Hnil Hnext].
  split.
  - exact (Hnil eq_refl 0 (Some (ErrForeign some_error))).
  - destruct (Hnext 0) as (_ & Heq & _).
    etransitivity; [exact (Heq 2 (Some (ErrForeign some_error)))|].
    vm_compute. reflexivity.
Defined.

(** C10 (the code departs from it).  The claim: every panic of
    [RegisterErrorCode], [New] and [Is] carries a well-formed typed error
    built by [New] from a reserved code: [errorex.002] for a duplicate
    registration, [errorex.001] for an unregistered code, [errorex.003]
    with both type names for a detail of the wrong type.  Here the code is
    evaluated where it departs.  For a code registered with a nil
    exemplar, [New] with a string as detail finds the types different and
    stops with a nil dereference while it asks the registered type for its
    name; and [Is] panics inside [reflect.Value.Call] for an error whose
    method [Code] takes a parameter.  Neither panic carries a typed
    error. *)
Theorem panic_without_typed_error (json_Marshal : any -> Marshal_result) (n : nat) :
  reachable no_detail_errorCodes
  ∧ New (S n) no_detail_errorCodes "no.detail" (Some (TString, VString "oops"))
    = Panic (RuntimeError nil_dereference)
  ∧ Is json_Marshal n no_detail_errorCodes (Some (ErrForeign argErr)) "no.detail"
    = Panic (RuntimeError "reflect: Call with too few input arguments").
Proof.
  assert (Hc : no_detail_errorCodes !! "no.detail"
               = Some {| entry_code := "no.detail";
                         description := "code without detail";
                         detailType := None |})
    by (vm_compute; reflexivity).
  split; [|split].
  - eapply rtc_r; [apply rtc_refl|].
    exists 0, "no.detail", "code without detail", None. reflexivity.
  - eapply New_nil_type; [exact Hc | discriminate | left; reflexivity].
  - eapply Is_Code_with_parameters; [rewrite Hc; eauto | reflexivity | |].
    + cbn. apply lookup_singleton_eq.
    + cbn. lia.
Qed.

(** ** Further properties of the code *)

(** X1.  What [New] does in every case, in a registry the package can be in:
    NotRegistered for an unregistered code; the typed error when the type
    of the detail is the registered one, both being possibly nil;
    DetailTypeMismatch with the names of both types when they differ and
    neither is nil; a nil dereference of the runtime when they differ and
    one of them is nil. *)
Theorem New_cases r c d n :
  reachable r ->
  (r !! c = None ->
   New (S (S n)) r c d
   = Panic (PanicError (ErrEX {| code := ErrCodeNotRegistered;
                                 detail := box_ErrorEXDetail {| Code := c |} |})))
  ∧ ∀ entry, r !! c = Some entry ->
      (reflect_TypeOf d = detailType entry ->
       New (S (S n)) r c d = Return (Some (ErrEX {| code := c; detail := d |})))
      ∧ (∀ te td, detailType entry = Some te -> reflect_TypeOf d = Some td ->
           td ≠ te ->
           New (S (S n)) r c d
           = Panic (PanicError
                      (ErrEX {| code := ErrDetailTypeMismatch;
                                detail := box_ErrorEXDetailTypeMismatch
                                            {| ExpectedType := Type_String te;
                                               ActualType := Type_String td |} |})))
      ∧ (reflect_TypeOf d ≠ detailType entry ->
         detailType entry = None ∨ reflect_TypeOf d = None ->
         New (S (S n)) r c d = Panic (RuntimeError nil_dereference)).
Proof.
  intros Hr. pose proof (reachable_reserved r Hr) as Hres. split.
  - intros Hc. apply New_not_registered; assumption.
  - intros entry Hc. split; [|split].
    + intros Ht. eapply New_accepts; eauto.
    + intros te td He Hd Hne. eapply New_mismatch; eauto.
    + intros Hne Hnil. eapply New_nil_type; eauto.
Qed.

Lemma New_cases_witness :
  New 2 test_errorCodes "unregistered.code" (Some (T_Message, VStruct [VString EmptyString]))
  = Panic (PanicError
             (ErrEX {| code := ErrCodeNotRegistered;
                       detail := box_ErrorEXDetail {| Code := "unregistered.code" |} |}))
  ∧ New 2 test_errorCodes "test.is" (Some (T_Label, VStruct [VString "test detail"]))
    = Panic (PanicError
               (ErrEX {| code := ErrDetailTypeMismatch;
                         detail := box_ErrorEXDetailTypeMismatch
                                     {| ExpectedType := "struct { Message string }";
                                        ActualType := "struct { Label string }" |} |})).
Proof.
  split.
  - assert (Hfresh : test_errorCodes !! "unregistered.code" = None)
      by (vm_compute; reflexivity).
    exact (proj1 (New_cases test_errorCodes "unregistered.code"
                    (Some (T_Message, VStruct [VString EmptyString])) 0
                    test_errorCodes_reachable) Hfresh).
  - assert (Hc : test_errorCodes !! "test.is"
                 = Some {| entry_code := "test.is"; description := "test description";
                           detailType := Some T_Message |})
      by (vm_compute; reflexivity).
    assert (Hne : T_Label ≠ T_Message) by discriminate.
    exact (proj1 (proj2 (proj2 (New_cases test_errorCodes "test.is"
                                  (Some (T_Label, VStruct [VString "test detail"])) 0
                                  test_errorCodes_reachable) _ Hc))
             T_Message T_Label eq_refl eq_refl Hne).
Defined.

(** X2.  Every panic of [New] that carries an error value carries a typed
    error that is well formed in the registry, of code [errorex.001] or
    [errorex.003]; and a panic of [RegisterErrorCode] carries the
    well-formed typed error of code [errorex.002] for the offending
    code. *)
Theorem panic_values_well_formed r c d n :
  reachable r ->
  (∀ v, New (S (S n)) r c d = Panic (PanicError v) ->
     ∃ e, v = ErrEX e ∧ well_formed r e
          ∧ (code e = ErrCodeNotRegistered ∨ code e = ErrDetailTypeMismatch))
  ∧ (∀ description p r',
       RegisterErrorCode (S n) c description d r = (Panic p, r') ->
       r' = r
       ∧ ∃ e, p = PanicError (ErrEX e) ∧ well_formed r e
              ∧ code e = ErrCodeAlreadyRegistered
              ∧ detail e = box_ErrorEXDetail {| Code := c |}).
Proof.
  intros Hr. destruct (reachable_reserved r Hr) as (H0 & H1 & H2 & H3).
  pose proof (reachable_reserved r Hr) as Hres. split.
  - intros v Hv. destruct (r !! c) as [entry|] eqn:Hc.
    + destruct (decide (reflect_TypeOf d = detailType entry)) as [Ht|Hne].
      { rewrite (New_accepts r c d entry _ Hc Ht) in Hv. discriminate. }
      destruct (detailType entry) as [te|] eqn:He;
        [destruct (reflect_TypeOf d) as [td|] eqn:Hd|].
      * rewrite (New_mismatch r c d entry te td n Hres Hc He Hd) in Hv by congruence.
        injection Hv as <-. eexists. split; [reflexivity|]. split; [|right; reflexivity].
        destruct H3 as (e3 & Hc3 & Ht3). exists e3. split; [exact Hc3|].
        rewrite Ht3. reflexivity.
      * rewrite (New_nil_type r c d entry _ Hc) in Hv; [discriminate | |].
        -- rewrite Hd, He. discriminate.
        -- right. exact Hd.
      * rewrite (New_nil_type r c d entry _ Hc) in Hv; [discriminate | |].
        -- rewrite He. exact Hne.
        -- left. exact He.
    + rewrite (New_not_registered r c d n Hres Hc) in Hv.
      injection Hv as <-. eexists. split; [reflexivity|]. split; [|left; reflexivity].
      destruct H1 as (e1 & Hc1 & Ht1). exists e1. split; [exact Hc1|].
      rewrite Ht1. reflexivity.
  - intros description p r'. unfold RegisterErrorCode.
    destruct (r !! c) as [entry|]; [|discriminate].
    rewrite (New_has_shape r _ _ _ n H2) by reflexivity. cbn.
    intros [= <- <-]. split; [reflexivity|].
    eexists. split; [reflexivity|]. split; [|split; reflexivity].
    destruct H2 as (e2 & Hc2 & Ht2). exists e2. split; [exact Hc2|].
    rewrite Ht2. reflexivity.
Qed.

Lemma panic_values_well_formed_witness :
  ∃ e, well_formed test_errorCodes e
       ∧ code e = ErrCodeAlreadyRegistered
       ∧ detail e = box_ErrorEXDetail {| Code := "test.is" |}
       ∧ RegisterErrorCode 1 "test.is" "once more" None test_errorCodes
         = (Panic (PanicError (ErrEX e)), test_errorCodes).
Proof.
  destruct (proj2 (panic_values_well_formed test_errorCodes "test.is" None 0
                     test_errorCodes_reachable)
              "once more" _ _ eq_refl) as (_ & e & Hp & Hwf & Hcode & Hdetail).
  exists e. split; [exact Hwf|]. split; [exact Hcode|]. split; [exact Hdetail|].
  injection Hp as <-. reflexivity.
Defined.

Lemma panic_with_not_Return {A} (m : outcome EX) (a : A) : panic_with m ≠ Return a.
Proof. unfold panic_with. destruct m as [[v|]| |]; discriminate. Qed.

(** What [New] returns is the typed error of its arguments, and it returns
    only for a registered code and a detail of the registered type. *)
Lemma New_returns_inv n r c d v :
  New n r c d = Return v ->
  ∃ entry, r !! c = Some entry ∧ reflect_TypeOf d = detailType entry
           ∧ v = Some (ErrEX {| code := c; detail := d |}).
Proof.
  destruct n as [|n]; [discriminate|]. rewrite New_unfold.
  destruct (r !! c) as [entry|].
  - case_decide as Hne.
    + destruct (Type_String_call (detailType entry)) as [expected| |]; try discriminate.
      destruct (Type_String_call (reflect_TypeOf d)) as [actual| |]; try discriminate.
      cbn -[New]. intros H. exfalso. exact (panic_with_not_Return _ _ H).
    + intros [= <-]. exists entry. split; [reflexivity|]. split; [|reflexivity].
      destruct (decide (reflect_TypeOf d = detailType entry)); [assumption|contradiction].
  - intros H. exfalso. exact (panic_with_not_Return _ _ H).
Qed.

(** X3.  [Is] on the typed errors that [New] builds, at any later time: true
    for the code the error was built with, false for every other
    registered code; false for a nil error and for an error without a
    method [Code]; NotRegistered for an unregistered code, whatever the
    error. *)
Theorem Is_typed_errors (json_Marshal : any -> Marshal_result) r c d n v r' fuel :
  reachable r -> New n r c d = Return v -> later r r' ->
  Is json_Marshal fuel r' v c = Return true
  ∧ (∀ c', is_Some (r' !! c') -> c' ≠ c -> Is json_Marshal fuel r' v c' = Return false)
  ∧ (∀ c', is_Some (r' !! c') -> Is json_Marshal fuel r' None c' = Return false)
  ∧ (∀ c' w, is_Some (r' !! c') -> MethodByName json_Marshal w "Code" = None ->
       Is json_Marshal fuel r' (Some w) c' = Return false)
  ∧ (∀ c' err, r' !! c' = None ->
       Is json_Marshal (S (S fuel)) r' err c'
       = Panic (PanicError (ErrEX {| code := ErrCodeNotRegistered;
                                     detail := box_ErrorEXDetail {| Code := c' |} |}))).
Proof.
  intros Hr Hnew Hl.
  destruct (New_returns_inv _ _ _ _ _ Hnew) as (entry & Hc & _ & ->).
  assert (Hc' : is_Some (r' !! c)) by (exists entry; eapply later_keeps; eauto).
  split; [|split; [|split; [|split]]].
  - rewrite Is_ex by exact Hc'. cbn. rewrite bool_decide_eq_true_2; reflexivity.
  - intros c' Hreg Hne. rewrite Is_ex by exact Hreg. cbn.
    rewrite bool_decide_eq_false_2; [reflexivity | congruence].
  - intros c' Hreg. apply Is_nil, Hreg.
  - intros c' w Hreg Hm. apply Is_no_Code_method; assumption.
  - intros c' err Hnone. apply Is_not_registered; [|exact Hnone].
    apply reachable_reserved. eapply reachable_later; eauto.
Qed.

Lemma Is_typed_errors_witness :
  Is sample_Marshal 0 test_errorCodes
    (Some (ErrEX {| code := "test.is";
                    detail := Some (T_Message, VStruct [VString "test detail"]) |}))
    "test.is"
  = Return true
  ∧ Is sample_Marshal 0 test_errorCodes (Some (ErrForeign some_error)) "test.is"
    = Return false
  ∧ Is sample_Marshal 2 test_errorCodes
      (Some (ErrEX {| code := "test.is";
                      detail := Some (T_Message, VStruct [VString EmptyString]) |}))
      "unregistered.code"
    = Panic (PanicError
               (ErrEX {| code := ErrCodeNotRegistered;
                         detail := box_ErrorEXDetail {| Code := "unregistered.code" |} |})).
Proof.
  assert (Hreg : is_Some (test_errorCodes !! "test.is")) by (vm_compute; eauto).
  assert (Hfresh : test_errorCodes !! "unregistered.code" = None)
    by (vm_compute; reflexivity).
  destruct (Is_typed_errors sample_Marshal test_errorCodes "test.is"
              (Some (T_Message, VStruct [VString "test detail"])) 1 _
              test_errorCodes 0 test_errorCodes_reachable eq_refl (rtc_refl _ _))
    as (Htrue & _ & _ & Hother & Hpanic).
  split; [exact Htrue|]. split.
  - exact (Hother "test.is" (ErrForeign some_error) Hreg eq_refl).
  - exact (Hpanic "unregistered.code" _ Hfresh).
Defined.

(** X4.  One call of [RegisterErrorCode], whatever its outcome, deletes
    and changes no entry and touches no code but its own; a call that
    does not return leaves the registry as it was; a call that returns
    found its code free and adds exactly that code. *)
Theorem RegisterErrorCode_frame fuel c description d r o r' :
  RegisterErrorCode fuel c description d r = (o, r') ->
  r ⊆ r'
  ∧ (∀ c', c' ≠ c -> r' !! c' = r !! c')
  ∧ (o ≠ Return () -> r' = r)
  ∧ (o = Return () ->
     r !! c = None ∧ dom r' = {[c]} ∪ dom r ∧ size r' = S (size r)
     ∧ (detailType <$> r' !! c) = Some (reflect_TypeOf d)).
Proof.
  unfold RegisterErrorCode. destruct (r !! c) as [entry|] eqn:Hc.
  - intros [= <- <-]. split; [reflexivity|]. split; [reflexivity|].
    split; [reflexivity|]. intros H. exfalso. exact (panic_with_not_Return _ _ H).
  - intros [= <- <-]. split; [apply insert_subseteq, Hc|].
    split; [intros c' Hne; apply lookup_insert_ne; congruence|].
    split; [intros H; contradiction H; reflexivity|]. intros _.
    split; [reflexivity|]. split; [apply dom_insert_L|].
    split; [apply map_size_insert_None, Hc|].
    rewrite lookup_insert_eq. reflexivity.
Qed.

Lemma RegisterErrorCode_frame_witness :
  initial_errorCodes ⊆ test_errorCodes
  ∧ test_errorCodes !! ErrCodeUnknownError = initial_errorCodes !! ErrCodeUnknownError
  ∧ size test_errorCodes = 5
  ∧ snd (RegisterErrorCode 1 "test.is" "once more" None test_errorCodes)
    = test_errorCodes.
Proof.
  destruct (RegisterErrorCode_frame 0 "test.is" "test description"
              (Some (T_Message, VStruct [VString EmptyString]))
              initial_errorCodes (Return ()) test_errorCodes eq_refl)
    as (Hsub & Hother & _ & Hret).
  destruct (Hret eq_refl) as (_ & _ & Hsize & _).
  destruct (RegisterErrorCode_frame 1 "test.is" "once more" None test_errorCodes
              _ _ eq_refl) as (_ & _ & Hsame & _).
  split; [exact Hsub|]. split; [apply Hother; discriminate|].
  split; [exact Hsize|]. apply Hsame. discriminate.
Defined.

Lemma later_from_empty : later ∅ initial_errorCodes.
Proof.
  pose (d0 := box_UnknownErrorDetail {| Detail := EmptyString |}).
  pose (d1 := box_ErrorEXDetail {| Code := EmptyString |}).
  pose (d3 := box_ErrorEXDetailTypeMismatch
                {| ExpectedType := EmptyString; ActualType := EmptyString |}).
  pose (r1 := snd (RegisterErrorCode 0 ErrCodeUnknownError "Unknown errorex" d0 ∅)).
  pose (r2 := snd (RegisterErrorCode 0 ErrCodeNotRegistered
                     "Errorex code not registered" d1 r1)).
  pose (r3 := snd (RegisterErrorCode 0 ErrCodeAlreadyRegistered
                     "Errorex code already registered" d1 r2)).
  apply (rtc_l _ _ r1);
    [exists 0, ErrCodeUnknownError, "Unknown errorex", d0; reflexivity|].
  apply (rtc_l _ _ r2);
    [exists 0, ErrCodeNotRegistered, "Errorex code not registered", d1; reflexivity|].
  apply (rtc_l _ _ r3);
    [exists 0, ErrCodeAlreadyRegistered, "Errorex code already registered", d1;
     reflexivity|].
  apply rtc_once.
  exists 0, ErrDetailTypeMismatch, "Errorex detail type mismatch", d3. reflexivity.
Qed.

Lemma register_step_subseteq r r' : register_step r r' -> r ⊆ r'.
Proof.
  intros (fuel & c & description & d & Hstep).
  apply RegisterErrorCode_returns in Hstep as [Hfresh ->].
  apply insert_subseteq, Hfresh.
Qed.

Lemma register_step_keys r r' :
  register_step r r' ->
  (∀ c entry, r !! c = Some entry -> entry_code entry = c) ->
  ∀ c entry, r' !! c = Some entry -> entry_code entry = c.
Proof.
  intros (fuel & c0 & description & d & Hstep) Hinv c entry.
  apply RegisterErrorCode_returns in Hstep as [Hfresh ->].
  destruct (decide (c0 = c)) as [->|Hne].
  - rewrite lookup_insert_eq. intros [= <-]. reflexivity.
  - rewrite lookup_insert_ne by exact Hne. apply Hinv.
Qed.

(** X5.  Invariants of the registry.  Registering only adds: a registry
    that comes later holds every earlier entry unchanged, so a code keeps
    the description and the detail type of its first registration, and
    the reserved codes keep those that [init] gave them.  And in every
    registry the package can be in, the entry stored under a code holds
    that code. *)
Theorem registry_invariants r r' :
  reachable r -> later r r' ->
  initial_errorCodes ⊆ r ∧ r ⊆ r' ∧ reserved_registered r'
  ∧ (size r ≤ size r')%nat
  ∧ ∀ c entry, r' !! c = Some entry -> entry_code entry = c.
Proof.
  intros Hr Hl.
  assert (Hsub : ∀ a b, later a b -> a ⊆ b).
  { induction 1 as [|a b c Hstep _ IH]; [reflexivity|].
    etransitivity; [apply register_step_subseteq, Hstep | exact IH]. }
  split; [apply Hsub, Hr|]. split; [apply Hsub, Hl|].
  split; [apply reachable_reserved; eapply reachable_later; eauto|].
  split; [apply map_subseteq_size, Hsub, Hl|].
  assert (Hall : later ∅ r').
  { eapply rtc_trans; [exact later_from_empty|]. eapply rtc_trans; eauto. }
  assert (Hkeys : ∀ a b, later a b ->
            (∀ c entry, a !! c = Some entry -> entry_code entry = c) ->
            ∀ c entry, b !! c = Some entry -> entry_code entry = c).
  { induction 1 as [|a b c Hstep _ IH]; [auto|].
    intros Ha. apply IH. eapply register_step_keys; eauto. }
  apply (Hkeys ∅ r' Hall). intros c entry. rewrite lookup_empty. discriminate.
Qed.

Lemma registry_invariants_witness :
  initial_errorCodes ⊆ test_errorCodes
  ∧ reserved_registered test_errorCodes
  ∧ ∀ c entry, test_errorCodes !! c = Some entry -> entry_code entry = c.
Proof.
  destruct (registry_invariants initial_errorCodes test_errorCodes
              reachable_initial test_errorCodes_reachable)
    as (_ & Hsub & Hres & _ & Hkeys).
  split; [exact Hsub|]. split; [exact Hres | exact Hkeys].
Defined.

(** X6.  A typed error that [New] has returned stays well formed in
    every later registry: its code is registered there with the type of
    its detail.  So [New] called there with the error's own [Code()] and
    [Detail()] returns the same typed error again. *)
Theorem New_result_stays_well_formed n r c d v r' m :
  New n r c d = Return v -> later r r' ->
  ∃ e, v = Some (ErrEX e) ∧ well_formed r' e
       ∧ New (S m) r' (ex_Code e) (ex_Detail e) = Return v.
Proof.
  intros Hnew Hl.
  destruct (New_returns_inv _ _ _ _ _ Hnew) as (entry & Hc & Ht & ->).
  assert (Hc' : r' !! c = Some entry) by (eapply later_keeps; eauto).
  eexists. split; [reflexivity|]. split.
  - exists entry. split; [exact Hc' | exact Ht].
  - cbn. eapply New_accepts; eauto.
Qed.

Lemma New_result_stays_well_formed_witness :
  ∃ e, New 1 initial_errorCodes ErrCodeUnknownError
         (box_UnknownErrorDetail {| Detail := "boom" |})
       = Return (Some (ErrEX e))
       ∧ well_formed test_errorCodes e
       ∧ New 1 test_errorCodes (ex_Code e) (ex_Detail e) = Return (Some (ErrEX e)).
Proof.
  destruct (New_result_stays_well_formed 1 initial_errorCodes ErrCodeUnknownError
              (box_UnknownErrorDetail {| Detail := "boom" |}) _ test_errorCodes 0
              eq_refl test_errorCodes_reachable) as (e & He & Hwf & Hnew).
  exists e. injection He as <-. split; [reflexivity|].
  split; [exact Hwf | exact Hnew].
Defined.

Lemma allocate_spec store t :
  fst (allocate store t) = Some (List.length store)
  ∧ store !! List.length store = None
  ∧ snd (allocate store t) !! List.length store
    = Some {| conv_type := t; next := None |}
  ∧ (∀ a node, store !! a = Some node -> snd (allocate store t) !! a = Some node)
  ∧ List.length (snd (allocate store t)) = S (List.length store).
Proof.
  unfold allocate. cbn. split; [reflexivity|].
  split; [apply lookup_ge_None; lia|].
  split; [rewrite lookup_app_r by lia; rewrite Nat.sub_diag; reflexivity|].
  split; [intros a node Ha; apply lookup_app_l_Some, Ha|].
  rewrite length_app. cbn. lia.
Qed.

(** X7.  The two constructors.  Each makes a converter at an address that
    was free, and leaves every converter that exists as it is.  The
    catch-all converter has no successor; the pass-through converter has
    the successor it was given, also when that is nil. *)
Theorem converter_constructors store nxt :
  (fst (NewUnknownErrorConverter store) ≫= (store !!.) = None
   ∧ fst (NewUnknownErrorConverter store) ≫= (snd (NewUnknownErrorConverter store) !!.)
     = Some {| conv_type := unknownErrorConverter; next := None |}
   ∧ ∀ a node, store !! a = Some node ->
       snd (NewUnknownErrorConverter store) !! a = Some node)
  ∧ (fst (NewEXErrorConverter store nxt) ≫= (store !!.) = None
     ∧ fst (NewEXErrorConverter store nxt) ≫= (snd (NewEXErrorConverter store nxt) !!.)
       = Some {| conv_type := exErrorConverter; next := nxt |}
     ∧ ∀ a node, store !! a = Some node ->
         snd (NewEXErrorConverter store nxt) !! a = Some node).
Proof.
  split.
  - destruct (allocate_spec store unknownErrorConverter) as (_ & Hfree & Hnew & Hold & _).
    unfold NewUnknownErrorConverter. cbn. auto.
  - destruct (allocate_spec store exErrorConverter) as (_ & Hfree & Hnew & Hold & Hlen).
    unfold NewEXErrorConverter, SetNext. cbn in *. rewrite Hnew. cbn.
    split; [exact Hfree|]. split.
    + apply list_lookup_insert_eq. rewrite Hlen. lia.
    + intros a node Ha. rewrite list_lookup_insert_ne; [apply Hold, Ha|].
      apply lookup_lt_Some in Ha. lia.
Qed.

(** X8.  [SetNext] on a converter of the store returns, gives the
    converter its new successor and keeps its type, and changes no other
    converter; a second [SetNext] replaces what the first has set.
    [SetNext] through a nil or dangling receiver panics and changes
    nothing. *)
Theorem SetNext_frame store a node nxt :
  store !! a = Some node ->
  SetNext store (Some a) nxt
  = (Return (), <[a := {| conv_type := conv_type node; next := nxt |}]> store)
  ∧ snd (SetNext store (Some a) nxt) !! a
    = Some {| conv_type := conv_type node; next := nxt |}
  ∧ (∀ b, b ≠ a -> snd (SetNext store (Some a) nxt) !! b = store !! b)
  ∧ List.length (snd (SetNext store (Some a) nxt)) = List.length store
  ∧ (∀ nxt2, snd (SetNext (snd (SetNext store (Some a) nxt)) (Some a) nxt2)
             = snd (SetNext store (Some a) nxt2))
  ∧ (∀ b, b ≫= (store !!.) = None ->
          SetNext store b nxt = (Panic (RuntimeError nil_dereference), store)).
Proof.
  intros Ha. pose proof (lookup_lt_Some _ _ _ Ha) as Hlt.
  assert (Hset : ∀ x, SetNext store (Some a) x
            = (Return (), <[a := {| conv_type := conv_type node; next := x |}]> store)).
  { intros x. unfold SetNext. cbn. rewrite Ha. reflexivity. }
  split; [apply Hset|]. rewrite !Hset. cbn.
  split; [apply list_lookup_insert_eq, Hlt|].
  split; [intros b Hne; apply list_lookup_insert_ne; congruence|].
  split; [apply length_insert|]. split.
  - intros nxt2. rewrite Hset. unfold SetNext. cbn.
    rewrite list_lookup_insert_eq by exact Hlt. cbn.
    rewrite list_insert_insert_eq. reflexivity.
  - intros b Hb. unfold SetNext. rewrite Hb. reflexivity.
Qed.

Lemma SetNext_frame_witness :
  SetNext base_store (Some 1) (Some 0)
  = (Return (), [ {| conv_type := unknownErrorConverter; next := None |};
                  {| conv_type := BaseErrorConverter; next := Some 0 |} ])
  ∧ snd (SetNext (snd (SetNext base_store (Some 1) (Some 0))) (Some 1) None)
    = base_store
  ∧ SetNext base_store None (Some 0)
    = (Panic (RuntimeError nil_dereference), base_store).
Proof.
  destruct (SetNext_frame base_store 1
              {| conv_type := BaseErrorConverter; next := None |} (Some 0) eq_refl)
    as (Hset & _ & _ & _ & Htwice & Hnil).
  split; [exact Hset|]. split; [exact (Htwice None) | exact (Hnil None eq_refl)].
Defined.

(** X9.  A chain of converters that runs in a circle: when every
    converter of a set hands the error on to a converter of the set (a
    [BaseErrorConverter] with a successor, or a pass-through converter
    with a successor for an error that does not implement [EX]), then
    [ConvertError] on a converter of the set does not end, whatever the
    fuel: it neither returns nor panics. *)
Theorem forwarding_cycle_never_ends (json_Marshal : any -> Marshal_result)
    r store (P : nat -> Prop) err :
  (∀ a, P a ->
     ∃ node b, store !! a = Some node ∧ next node = Some b ∧ P b
               ∧ (conv_type node = BaseErrorConverter
                  ∨ (conv_type node = exErrorConverter ∧ assert_EX err = None))) ->
  ∀ a, P a ->
    (∀ n, ConvertError json_Marshal r store n (Some a) err = OutOfFuel)
    ∧ ∀ res, ¬ yields (λ n, ConvertError json_Marshal r store n (Some a) err) res.
Proof.
  intros Hcycle.
  assert (Hloop : ∀ n a, P a ->
            ConvertError json_Marshal r store n (Some a) err = OutOfFuel).
  { induction n as [|n IH]; intros a Ha; [reflexivity|].
    destruct (Hcycle a Ha) as (node & b & Hnode & Hnext & Hb & Hty).
    rewrite (ConvertError_at _ _ _ _ _ node _ Hnode).
    destruct Hty as [Hty|[Hty Herr]]; rewrite Hty.
    - unfold BaseErrorConverter_ConvertError. rewrite Hnext. apply IH, Hb.
    - unfold exErrorConverter_ConvertError, BaseErrorConverter_ConvertError.
      rewrite Herr, Hnext. apply IH, Hb. }
  intros a Ha. split; [intros n; apply Hloop, Ha|].
  intros res [Hres [n Hn]]. rewrite Hloop in Hn by exact Ha. congruence.
Qed.

Lemma forwarding_cycle_never_ends_witness :
  loop_store = [ {| conv_type := BaseErrorConverter; next := Some 0 |} ]
  ∧ ∀ n, ConvertError sample_Marshal initial_errorCodes loop_store n (Some 0)
           (Some (ErrForeign some_error))
         = OutOfFuel.
Proof.
  split; [reflexivity|].
  apply (forwarding_cycle_never_ends sample_Marshal initial_errorCodes loop_store
           (λ a, a = 0) (Some (ErrForeign some_error))); [|reflexivity].
  intros a ->. exists {| conv_type := BaseErrorConverter; next := Some 0 |}, 0.
  split; [reflexivity|]. split; [reflexivity|]. split; [reflexivity|].
  left. reflexivity.
Defined.



Lemma recommended_chain_store store :
  let made := NewUnknownErrorConverter store in
  let chain := NewEXErrorConverter (snd made) (fst made) in
  fst chain = Some (S (List.length store))
  ∧ snd chain !! S (List.length store)
    = Some {| conv_type := exErrorConverter; next := Some (List.length store) |}
  ∧ snd chain !! List.length store
    = Some {| conv_type := unknownErrorConverter; next := None |}.
Proof.
  cbn zeta. unfold NewEXErrorConverter, NewUnknownErrorConverter, allocate, SetNext.
  cbn [fst snd mbind option_bind default].
  set (unknown := {| conv_type := unknownErrorConverter; next := None |}).
  set (passthrough := {| conv_type := exErrorConverter; next := None |}).
  assert (Hl : List.length (store ++ [unknown])%list = S (List.length store))
    by (rewrite length_app; cbn; lia).
  rewrite !Hl.
  assert (Hnew : ((store ++ [unknown]) ++ [passthrough])%list !! S (List.length store)
                 = Some passthrough).
  { rewrite lookup_app_r; rewrite Hl; [|lia]. rewrite Nat.sub_diag. reflexivity. }
  rewrite Hnew. cbn. split; [reflexivity|]. split.
  - apply list_lookup_insert_eq. rewrite !length_app. cbn. lia.
  - rewrite list_lookup_insert_ne by lia. rewrite <- app_assoc.
    rewrite lookup_app_r by lia. rewrite Nat.sub_diag. reflexivity.
Qed.

(** X11.  The chain the package recommends, a pass-through converter in
    front of a catch-all converter, each made by its constructor.  An
    error that is not nil and implements [EX] comes back as it is.  For
    any other error that is not nil the catch-all converter calls its
    [Error()]: when that returns a message, the result is the typed error
    of code [errorex.000] with that message, which [Is] recognises under
    [errorex.000] and under no other registered code; when it panics, the
    chain panics with the same value, and when it does not end, neither
    does the chain.  For the nil error the chain panics with a nil
    dereference. *)
Theorem recommended_chain (json_Marshal : any -> Marshal_result) r store v n :
  reachable r ->
  let made := NewUnknownErrorConverter store in
  let chain := NewEXErrorConverter (snd made) (fst made) in
  let unknown_error msg :=
    ErrEX {| code := ErrCodeUnknownError;
             detail := box_UnknownErrorDetail {| Detail := msg |} |} in
  (implements_EX v = true ->
   ConvertError json_Marshal r (snd chain) (S (S (S n))) (fst chain) (Some v)
   = Return (Some v))
  ∧ (implements_EX v = false ->
     (∀ msg, Error_of json_Marshal v = Return msg ->
        ConvertError json_Marshal r (snd chain) (S (S (S n))) (fst chain) (Some v)
        = Return (Some (unknown_error msg)))
     ∧ (∀ p, Error_of json_Marshal v = Panic p ->
          ConvertError json_Marshal r (snd chain) (S (S (S n))) (fst chain) (Some v)
          = Panic p)
     ∧ (Error_of json_Marshal v = OutOfFuel ->
        ConvertError json_Marshal r (snd chain) (S (S (S n))) (fst chain) (Some v)
        = OutOfFuel))
  ∧ (∀ msg fuel c, is_Some (r !! c) ->
       Is json_Marshal fuel r (Some (unknown_error msg)) c
       = Return (bool_decide (c = ErrCodeUnknownError)))
  ∧ ConvertError json_Marshal r (snd chain) (S (S n)) (fst chain) None
    = Panic (RuntimeError nil_dereference).
Proof.
  intros Hr made chain unknown_error.
  destruct (recommended_chain_store store) as (Hhead & Ha & Hu).
  fold made in Hhead, Ha, Hu. fold chain in Hhead, Ha, Hu.
  destruct (reachable_reserved r Hr) as (H0 & _).
  rewrite Hhead. split; [|split; [|split]].
  - intros Hex. rewrite (ConvertError_at _ _ _ _ _ _ _ Ha). cbn -[ConvertError].
    unfold exErrorConverter_ConvertError, assert_EX. rewrite Hex. reflexivity.
  - intros Hex.
    assert (Hdel : ConvertError json_Marshal r (snd chain) (S (S (S n)))
                     (Some (S (List.length store))) (Some v)
                   = unknownErrorConverter_ConvertError json_Marshal r (S n)
                       {| conv_type := unknownErrorConverter; next := None |} (Some v)).
    { rewrite (ConvertError_at _ _ _ _ _ _ _ Ha). cbn -[ConvertError].
      unfold exErrorConverter_ConvertError, assert_EX. rewrite Hex.
      unfold BaseErrorConverter_ConvertError. cbn -[ConvertError].
      rewrite (ConvertError_at _ _ _ _ _ _ _ Hu). reflexivity. }
    rewrite Hdel. unfold unknownErrorConverter_ConvertError, Error_call.
    split; [|split].
    + intros msg Hmsg. rewrite Hmsg. cbn -[New].
      rewrite (New_has_shape r _ _ _ n H0); reflexivity.
    + intros p Hp. rewrite Hp. reflexivity.
    + intros Hp. rewrite Hp. reflexivity.
  - intros msg fuel c Hc. unfold unknown_error. rewrite Is_ex by exact Hc. cbn. f_equal.
    apply bool_decide_ext. split; congruence.
  - rewrite (ConvertError_at _ _ _ _ _ _ _ Ha). cbn -[ConvertError].
    unfold exErrorConverter_ConvertError, BaseErrorConverter_ConvertError.
    cbn -[ConvertError].
    rewrite (ConvertError_at _ _ _ _ _ _ _ Hu). reflexivity.
Qed.

Lemma recommended_chain_witness :
  ConvertError sample_Marshal initial_errorCodes
    [ {| conv_type := unknownErrorConverter; next := None |};
      {| conv_type := exErrorConverter; next := Some 0 |} ]
    3 (Some 1) (Some (ErrForeign some_error))
  = Return (Some (ErrEX {| code := ErrCodeUnknownError;
                           detail := box_UnknownErrorDetail
                                       {| Detail := "some error" |} |}))
  ∧ ConvertError sample_Marshal initial_errorCodes
      [ {| conv_type := unknownErrorConverter; next := None |};
        {| conv_type := exErrorConverter; next := Some 0 |} ]
      2 (Some 1) None
    = Panic (RuntimeError nil_dereference).
Proof.
  destruct (recommended_chain sample_Marshal initial_errorCodes []
              (ErrForeign some_error) 0 reachable_initial) as (_ & H2 & _ & H4).
  split; [exact (proj1 (H2 eq_refl) "some error" eq_refl) | exact H4].
Defined.

(** X12.  For a registered code, [Is] consults the registry for nothing
    but that registration: it gives the same outcome in every registry
    that has the code and with every fuel.  It returns a boolean for every
    error, nil or not, unless the error is a pointer with a method [Code]
    and the call of that method through [reflect] fails: with a panic
    inside [reflect.Value.Call] when the method asks for arguments, and
    as the method itself fails when it panics, as [Code] of a nil [*ex]
    does, or does not end. *)
Theorem Is_registered_outcomes (json_Marshal : any -> Marshal_result) r c err fuel :
  is_Some (r !! c) ->
  ((∃ b, Is json_Marshal fuel r err c = Return b)
   ∨ (∃ v m, err = Some v ∧ ValueOf_Kind v = reflect_Ptr
             ∧ MethodByName json_Marshal v "Code" = Some m
             ∧ (((0 < required_arguments m)%nat
                 ∧ Is json_Marshal fuel r err c
                   = Panic (RuntimeError "reflect: Call with too few input arguments"))
                ∨ (required_arguments m = 0
                   ∧ ∃ x, fails m = Some x
                          ∧ Is json_Marshal fuel r err c = failed x))))
  ∧ ∀ r' fuel', is_Some (r' !! c) ->
      Is json_Marshal fuel' r' err c = Is json_Marshal fuel r err c.
Proof.
  intros [entry Hc]. split.
  - destruct err as [v|]; [|left; exists false; unfold Is; rewrite Hc; reflexivity].
    destruct (decide (ValueOf_Kind v = reflect_Ptr)) as [Hk|Hk];
      [|left; exists false; apply Is_not_pointer; eauto].
    destruct (MethodByName json_Marshal v "Code") as [m|] eqn:Hm;
      [|left; exists false; apply Is_no_Code_method; eauto].
    destruct (decide (0 < required_arguments m)%nat) as [Hn|Hn].
    + right. exists v, m. repeat (split; [assumption || reflexivity|]).
      left. split; [exact Hn|]. eapply Is_Code_with_parameters; eauto.
    + assert (Hcall : Value_Call m 0
                      = match fails m with
                        | Some x => failed x
                        | None => Return (results m)
                        end).
      { unfold Value_Call. fold (required_arguments m).
        case_decide; [contradiction|].
        rewrite bool_decide_eq_false_2 by lia. rewrite andb_false_r. reflexivity. }
      destruct (fails m) as [x|] eqn:Hpan.
      * right. exists v, m. repeat (split; [assumption || reflexivity|]).
        right. split; [lia|]. exists x. split; [exact Hpan|].
        rewrite (Is_pointer_call json_Marshal r fuel v c m) by eauto.
        rewrite Hcall. destruct x; reflexivity.
      * left. rewrite (Is_pointer_call json_Marshal r fuel v c m) by eauto.
        rewrite Hcall. cbn.
        destruct (results m) as [|o [|o' rest]]; [eauto | | eauto].
        case_decide; eauto.
  - intros r' fuel' [entry' Hc']. unfold Is. rewrite Hc, Hc'. reflexivity.
Qed.

Lemma Is_registered_outcomes_witness :
  (∃ b, Is sample_Marshal 0 test_errorCodes (Some (ErrForeign some_error)) "test.is"
        = Return b)
  ∧ Is sample_Marshal 7 initial_errorCodes (Some (ErrForeign ptrErr)) ErrCodeUnknownError
    = Is sample_Marshal 0 test_errorCodes (Some (ErrForeign ptrErr)) ErrCodeUnknownError
  ∧ Is sample_Marshal 0 initial_errorCodes (Some (ErrForeign nil_ex)) ErrCodeUnknownError
    = Panic (RuntimeError nil_dereference).
Proof.
  assert (H1 : is_Some (test_errorCodes !! "test.is")) by (vm_compute; eauto).
  assert (H0 : is_Some (test_errorCodes !! ErrCodeUnknownError)) by (vm_compute; eauto).
  assert (H0' : is_Some (initial_errorCodes !! ErrCodeUnknownError))
    by (vm_compute; eauto).
  split; [|split].
  - destruct (proj1 (Is_registered_outcomes sample_Marshal test_errorCodes "test.is"
                       (Some (ErrForeign some_error)) 0 H1))
      as [Hb|(v & m & Hv & _ & Hm & _)].
    + exact Hb.
    + injection Hv as <-. discriminate Hm.
  - exact (proj2 (Is_registered_outcomes sample_Marshal test_errorCodes
                    ErrCodeUnknownError (Some (ErrForeign ptrErr)) 0 H0)
             initial_errorCodes 7 H0').
  - destruct (proj1 (Is_registered_outcomes sample_Marshal initial_errorCodes
                       ErrCodeUnknownError (Some (ErrForeign nil_ex)) 0 H0'))
      as [[b Hb]|(v & m & Hv & _ & Hm & [[Hn _]|(_ & x & Hx & His)])].
    + discriminate Hb.
    + injection Hv as <-. cbn in Hm. rewrite lookup_insert_eq in Hm.
      injection Hm as <-. cbn in Hn. lia.
    + injection Hv as <-. cbn in Hm. rewrite lookup_insert_eq in Hm.
      injection Hm as <-. injection Hx as <-. exact His.
Defined.

Lemma implements_EX_offers_Code (json_Marshal : any -> Marshal_result) v s :
  implements_EX v = true -> Code_call v = Some s -> offers_Code json_Marshal v s.
Proof.
  destruct v as [e|f]; cbn.
  - intros _ [= <-]. eexists _, _. repeat split; reflexivity.
  - destruct (f_methods f !! "Code") as [m|] eqn:Hm; [|discriminate].
    destruct (f_methods f !! "Detail") as [dm|]; [|discriminate].
    unfold has_signature. rewrite !andb_true_iff, !bool_decide_eq_true, negb_true_iff.
    intros [[[Hin Hvar] Hres] _]. cbn.
    destruct (fails m) as [x|] eqn:Hpan; [discriminate|].
    destruct (results m) as [|[t x] [|o' rest]] eqn:Hr; try discriminate.
    injection Hres as ->. destruct x; try discriminate. intros [= <-].
    exists m, {| v_type := TString; v_val := VString s0 |}.
    repeat split; try assumption; reflexivity.
Qed.

(** X13.  What [Is] makes of a value of the interface [EX], with [s] what
    its [Code()] returns and [c] a registered code: for a pointer, [Is]
    returns whether [s = c]; for a value of any other kind, [Is] returns
    false, also for [c = s], although the pass-through converter hands
    that same value on as a typed error. *)
Theorem Is_on_EX_values (json_Marshal : any -> Marshal_result)
    r c v s fuel store a node n :
  is_Some (r !! c) -> implements_EX v = true -> Code_call v = Some s ->
  store !! a = Some node -> conv_type node = exErrorConverter ->
  ConvertError json_Marshal r store (S n) (Some a) (Some v) = Return (Some v)
  ∧ Is json_Marshal fuel r (Some v) c
    = Return (if decide (ValueOf_Kind v = reflect_Ptr) then bool_decide (s = c)
              else false).
Proof.
  intros Hc Hex Hcode Ha Hty. split.
  - rewrite (ConvertError_at _ _ _ _ _ node _ Ha), Hty.
    unfold exErrorConverter_ConvertError, assert_EX. rewrite Hex. reflexivity.
  - case_decide as Hk.
    + apply Is_offers_Code; [exact Hc | exact Hk |].
      apply implements_EX_offers_Code; assumption.
    + apply Is_not_pointer; assumption.
Qed.

Lemma Is_on_EX_values_witness :
  ConvertError sample_Marshal initial_errorCodes chain_store 1 (Some 2)
    (Some (ErrForeign value_EX))
  = Return (Some (ErrForeign value_EX))
  ∧ Is sample_Marshal 0 initial_errorCodes (Some (ErrForeign value_EX))
      ErrCodeUnknownError
    = Return false
  ∧ Is sample_Marshal 0 initial_errorCodes (Some (ErrForeign foreign_EX))
      ErrCodeUnknownError
    = Return false.
Proof.
  assert (H0 : is_Some (initial_errorCodes !! ErrCodeUnknownError))
    by (vm_compute; eauto).
  split; [|split].
  - exact (proj1 (Is_on_EX_values sample_Marshal initial_errorCodes ErrCodeUnknownError
                    (ErrForeign value_EX) ErrCodeUnknownError 0 chain_store 2
                    {| conv_type := exErrorConverter; next := Some 1 |} 0
                    H0 eq_refl eq_refl eq_refl eq_refl)).
  - exact (proj2 (Is_on_EX_values sample_Marshal initial_errorCodes ErrCodeUnknownError
                    (ErrForeign value_EX) ErrCodeUnknownError 0 chain_store 2
                    {| conv_type := exErrorConverter; next := Some 1 |} 0
                    H0 eq_refl eq_refl eq_refl eq_refl)).
  - exact (proj2 (Is_on_EX_values sample_Marshal initial_errorCodes ErrCodeUnknownError
                    (ErrForeign foreign_EX) "main.E1" 0 chain_store 2
                    {| conv_type := exErrorConverter; next := Some 1 |} 0
                    H0 eq_refl eq_refl eq_refl eq_refl)).
Defined.

(** X14.  A chain of package converters without catch-all: when every
    converter from the head to the one without successor hands the error
    on, [ConvertError] on the head returns nil; it does not panic, also
    for the nil error. *)
Theorem open_chain_returns_nil (json_Marshal : any -> Marshal_result)
    r store err k a n :
  open_chain store err k a ->
  ConvertError json_Marshal r store (S (k + n)) (Some a) err = Return None.
Proof.
  induction 1 as [a node Ha Hnext Hty | k a node b Ha Hnext Hty _ IH].
  - rewrite (ConvertError_at _ _ _ _ _ node _ Ha).
    destruct Hty as [Hty|[Hty Herr]]; rewrite Hty.
    + unfold BaseErrorConverter_ConvertError. rewrite Hnext. reflexivity.
    + unfold exErrorConverter_ConvertError, BaseErrorConverter_ConvertError.
      rewrite Herr, Hnext. reflexivity.
  - rewrite (ConvertError_at _ _ _ _ _ node _ Ha).
    destruct Hty as [Hty|[Hty Herr]]; rewrite Hty.
    + unfold BaseErrorConverter_ConvertError. rewrite Hnext. exact IH.
    + unfold exErrorConverter_ConvertError, BaseErrorConverter_ConvertError.
      rewrite Herr, Hnext. exact IH.
Qed.

Lemma open_chain_returns_nil_witness :
  ConvertError sample_Marshal initial_errorCodes
    (snd (NewEXErrorConverter base_store (Some 1))) 2 (Some 2)
    (Some (ErrForeign some_error))
  = Return None
  ∧ ConvertError sample_Marshal initial_errorCodes
      (snd (NewEXErrorConverter base_store (Some 1))) 2 (Some 2) None
    = Return None.
Proof.
  split.
  - apply (open_chain_returns_nil sample_Marshal initial_errorCodes
             (snd (NewEXErrorConverter base_store (Some 1)))
             (Some (ErrForeign some_error)) 1 2 0).
    apply (open_next _ _ 0 2 {| conv_type := exErrorConverter; next := Some 1 |} 1);
      [reflexivity | reflexivity | right; split; reflexivity |].
    apply (open_last _ _ 1 {| conv_type := BaseErrorConverter; next := None |});
      [reflexivity | reflexivity | left; reflexivity].
  - apply (open_chain_returns_nil sample_Marshal initial_errorCodes
             (snd (NewEXErrorConverter base_store (Some 1))) None 1 2 0).
    apply (open_next _ _ 0 2 {| conv_type := exErrorConverter; next := Some 1 |} 1);
      [reflexivity | reflexivity | right; split; reflexivity |].
    apply (open_last _ _ 1 {| conv_type := BaseErrorConverter; next := None |});
      [reflexivity | reflexivity | left; reflexivity].
Defined.

(** X15.  The recursion of [New].  In every registry the package can be
    in, a call of [New] ends within two nested calls: more fuel than two
    changes nothing.  In a registry without the code [errorex.001], a
    call of [New] with an unregistered code never ends: to panic it first
    calls [New] with [errorex.001], which is unregistered again. *)
Theorem New_recursion r c d :
  (reachable r ->
   New 2 r c d ≠ OutOfFuel ∧ ∀ n, New (S (S n)) r c d = New 2 r c d)
  ∧ (r !! ErrCodeNotRegistered = None -> r !! c = None ->
     ∀ n, New n r c d = OutOfFuel).
Proof.
  split.
  - intros Hr.
    assert (H2 : New 2 r c d ≠ OutOfFuel).
    { pose proof (reachable_reserved r Hr) as Hres.
      destruct (r !! c) as [entry|] eqn:Hc.
      - destruct (decide (reflect_TypeOf d = detailType entry)) as [Ht|Hne].
        + rewrite (New_accepts r c d entry _ Hc Ht). discriminate.
        + destruct (detailType entry) as [te|] eqn:He;
            [destruct (reflect_TypeOf d) as [td|] eqn:Hd|].
          * rewrite (New_mismatch r c d entry te td 0 Hres Hc He Hd) by congruence.
            discriminate.
          * rewrite (New_nil_type r c d entry _ Hc); [discriminate | |].
            -- rewrite Hd, He. discriminate.
            -- right. exact Hd.
          * rewrite (New_nil_type r c d entry _ Hc); [discriminate | |].
            -- rewrite He. exact Hne.
            -- left. exact He.
      - rewrite (New_not_registered r c d 0 Hres Hc). discriminate. }
    split; [exact H2|]. intros n. apply New_fuel_le; [lia | exact H2].
  - intros H1 Hc n. revert c d Hc. induction n as [|n IH]; intros c d Hc; [reflexivity|].
    rewrite New_unfold, Hc. rewrite (IH _ _ H1). reflexivity.
Qed.

Lemma New_recursion_witness :
  New 9 test_errorCodes "unregistered.code" None
  = New 2 test_errorCodes "unregistered.code" None
  ∧ ∀ n, New n ∅ "unregistered.code" None = OutOfFuel.
Proof.
  destruct (New_recursion test_errorCodes "unregistered.code" None) as [Hreach _].
  destruct (New_recursion ∅ "unregistered.code" None) as [_ Hempty].
  split.
  - exact (proj2 (Hreach test_errorCodes_reachable) 7).
  - exact (Hempty eq_refl eq_refl).
Defined.

(** X16.  Register, then construct, then test.  Once
    [RegisterErrorCode(c, ..., exemplar)] has returned, at any later time
    [New(c, d)] returns the typed error of [c] and [d] for every detail
    [d] of the exemplar's type, and [Is] of that error and [c] is true;
    for a detail of another type, neither type being nil, [New] panics
    with the typed error of code [errorex.003] that names the exemplar's
    type as expected and the detail's type as actual. *)
Theorem register_then_New (json_Marshal : any -> Marshal_result)
    r fuel c description exemplar r' r'' d n :
  reachable r ->
  RegisterErrorCode fuel c description exemplar r = (Return (), r') ->
  later r' r'' ->
  (reflect_TypeOf d = reflect_TypeOf exemplar ->
   New (S n) r'' c d = Return (Some (ErrEX {| code := c; detail := d |}))
   ∧ Is json_Marshal n r'' (Some (ErrEX {| code := c; detail := d |})) c = Return true)
  ∧ (∀ te td, reflect_TypeOf exemplar = Some te -> reflect_TypeOf d = Some td ->
       td ≠ te ->
       New (S (S n)) r'' c d
       = Panic (PanicError
                  (ErrEX {| code := ErrDetailTypeMismatch;
                            detail := box_ErrorEXDetailTypeMismatch
                                        {| ExpectedType := Type_String te;
                                           ActualType := Type_String td |} |}))).
Proof.
  intros Hr Hreg Hl.
  pose proof (RegisterErrorCode_returns _ _ _ _ _ _ Hreg) as [Hfresh ->].
  set (entry := {| entry_code := c; description := description;
                   detailType := reflect_TypeOf exemplar |}) in *.
  assert (Hc : r'' !! c = Some entry)
    by (eapply later_keeps; [exact Hl | apply lookup_insert_eq]).
  assert (Hr'' : reachable r'').
  { eapply reachable_later; [|exact Hl].
    eapply rtc_r; [exact Hr|]. exists fuel, c, description, exemplar. exact Hreg. }
  split.
  - intros Ht. split; [eapply New_accepts; eauto|].
    rewrite Is_ex by eauto. cbn. rewrite bool_decide_eq_true_2; reflexivity.
  - intros te td He Hd Hne.
    eapply New_mismatch; eauto. apply reachable_reserved, Hr''.
Qed.

Lemma register_then_New_witness :
  New 1 test_errorCodes "test.is" (Some (T_Message, VStruct [VString "test detail"]))
  = Return (Some (ErrEX {| code := "test.is";
                           detail := Some (T_Message,
                                           VStruct [VString "test detail"]) |}))
  ∧ Is sample_Marshal 0 test_errorCodes
      (Some (ErrEX {| code := "test.is";
                      detail := Some (T_Message, VStruct [VString "test detail"]) |}))
      "test.is"
    = Return true.
Proof.
  exact (proj1 (register_then_New sample_Marshal initial_errorCodes 0 "test.is"
                  "test description" (Some (T_Message, VStruct [VString EmptyString]))
                  test_errorCodes test_errorCodes
                  (Some (T_Message, VStruct [VString "test detail"])) 0
                  reachable_initial eq_refl (rtc_refl _ _))
           eq_refl).
Defined.
